(** * IEC 61162 sentence and message generation

    A shallow embedding of [iec_61162/part_1/sentences.py] and
    [iec_61162/part_450/messages.py], followed by the properties of the
    encoding and fragmentation pipeline.

    Conventions of the embedding:
    - a Python [int] is a [Z]; [%] and [//] are [Z.modulo] and [Z.div]
      (both round towards minus infinity, as Python does for a positive
      divisor);
    - a Python [str] is a [string] of 8-bit characters: sentence text is
      ASCII, and the armouring alphabet lies in 48..119; where a character
      above 255 would change the result (the width of the printed
      checksum), module [CodePoints] gives the code over code points;
    - a function that can raise returns a [result];
    - an object with mutable attributes is a record that the method takes
      and returns (explicit state passing);
    - a [while] loop is a function defined by well-founded recursion on the
      number of iterations left. *)

From Stdlib Require Import ZArith List Lia Bool String Ascii.
From Stdlib Require Import QArith Qround DecimalString.
From Equations Require Import Equations.
Import ListNotations.
Open Scope Z_scope.

(** ** The Python run-time the code relies on *)

Inductive exn : Type := IndexError | ReadError | CreationError.

Inductive result (A : Type) : Type :=
| Ok (a : A)
| Raise (e : exn).
Arguments Ok {A} a.
Arguments Raise {A} e.

Definition bind {A B : Type} (r : result A) (k : A -> result B) : result B :=
  match r with
  | Ok a => k a
  | Raise e => Raise e
  end.

Notation "x <- r ;; k" := (bind r (fun x => k))
  (at level 61, r at next level, right associativity).

(** [len(s)] *)
Definition len (s : string) : Z := Z.of_nat (String.length s).

(** A slice bound [i] of a sequence of length [n]: negative bounds count
    from the end, and every bound is clamped to [0..n]. *)
Definition slice_bound (n i : Z) : Z :=
  if i <? 0 then Z.max 0 (i + n) else Z.min i n.

(** [s[lo:hi]] *)
Definition str_slice (s : string) (lo hi : Z) : string :=
  let lo' := slice_bound (len s) lo in
  let hi' := slice_bound (len s) hi in
  substring (Z.to_nat lo') (Z.to_nat (hi' - lo')) s.

(** [s[lo:]] *)
Definition str_from (s : string) (lo : Z) : string := str_slice s lo (len s).

(** [s[i]]: a one-character string, or [IndexError]. *)
Definition str_item (s : string) (i : Z) : result string :=
  let j := if i <? 0 then i + len s else i in
  if (0 <=? j) && (j <? len s) then
    match get (Z.to_nat j) s with
    | Some c => Ok (String c EmptyString)
    | None => Raise IndexError
    end
  else Raise IndexError.

(** [x in lst] for a list of strings *)
Definition str_in (x : string) (lst : list string) : bool :=
  existsb (String.eqb x) lst.

(** [ord(c)] and [chr(i)]; [chr] is only ever applied to values below 120. *)
Definition ord (c : ascii) : Z := Z.of_N (N_of_ascii c).
Definition chr (i : Z) : ascii := ascii_of_N (Z.to_N i).

(** [str.join] of the empty separator over [map(chr, lst)] *)
Definition join_chr (lst : list Z) : string :=
  string_of_list_ascii (map chr lst).

(** [s * n]: string repetition *)
Fixpoint str_repeat (s : string) (n : nat) : string :=
  match n with
  | O => EmptyString
  | S k => (s ++ str_repeat s k)%string
  end.

(** The format specifications the code uses.  [{:s}] of a [str] is the
    string itself; [{:d}] of an [int] is its decimal numeral. *)
Definition fmt_d (z : Z) : string := NilZero.string_of_int (Z.to_int z).

Definition hex_digit_upper (d : Z) : ascii :=
  if d <? 10 then chr (48 + d) else chr (55 + d).

(** The upper-case hexadecimal numeral of a natural number ([X]). *)
Equations? hex_upper (n : Z) : string by wf (Z.to_nat n) lt :=
  hex_upper n with Z_lt_ge_dec n 16 := {
    | left _ => String (hex_digit_upper n) EmptyString
    | right _ =>
        (hex_upper (n / 16) ++ String (hex_digit_upper (n mod 16)) EmptyString)%string }.
Proof.
  assert (0 <= n / 16 < n) by (split; [ apply Z.div_pos | apply Z.div_lt ]; lia).
  lia.
Qed.

Definition fmt_X (z : Z) : string :=
  if z <? 0 then String "-"%char (hex_upper (- z)) else hex_upper z.

(** [str.rjust]: right alignment in a field of [width] characters. *)
Definition rjust (fill : ascii) (width : Z) (s : string) : string :=
  (string_of_list_ascii (repeat fill (Z.to_nat (width - len s))) ++ s)%string.

(** ["{:>02X}"]: right-aligned, zero-filled, width 2, upper-case hex. *)
Definition fmt_r02X (z : Z) : string := rjust "0"%char 2 (fmt_X z).

Definition CRLF : string :=
  String (ascii_of_nat 13) (String (ascii_of_nat 10) EmptyString).

(** [a / b] on two [int]s is true division; it is taken here as the exact
    rational.  Python computes it in binary64, whose rounding leaves the
    ceiling unchanged for every numerator below 2^53 when the divisor is 57
    or 60, far beyond any string length. *)
Definition true_div (a b : Z) : Q := inject_Z a / inject_Z b.

(** [math.ceil] *)
Definition ceil (q : Q) : Z := Qceiling q.

(** *** The part of [bitstring.BitStream] the code uses

    A bit stream is the list of its bits, first bit first.  The read
    position is set to 0 by the only function that reads, so it is local to
    that function. *)
Definition BitStream : Type := list bool.

(** [len(bs)] *)
Definition bs_len (bs : BitStream) : Z := Z.of_nat (List.length bs).

(** [BitStream(n)]: [n] zero bits. *)
Definition BitStream_zeros (n : Z) : BitStream := repeat false (Z.to_nat n).

(** The unsigned integer a bit field denotes, most significant bit first. *)
Definition uint (field : list bool) : Z :=
  fold_left (fun v (b : bool) => 2 * v + Z.b2z b) field 0.

(** One [uint:w] read at [pos]: the value and the new position, or
    [ReadError] when fewer than [w] bits are left. *)
Definition read_uint (w : nat) (bs : BitStream) (pos : nat) : result (Z * nat) :=
  let field := firstn w (skipn pos bs) in
  if (List.length field =? w)%nat then Ok (uint field, (pos + w)%nat)
  else Raise ReadError.

(** [bs.readlist(count * 'uint:w, ')] from [pos]. *)
Fixpoint readlist_uint (w count : nat) (bs : BitStream) (pos : nat)
  : result (list Z) :=
  match count with
  | O => Ok []
  | S k =>
      r <- read_uint w bs pos ;;
      rest <- readlist_uint w k bs (snd r) ;;
      Ok (fst r :: rest)
  end.

(** [BitStream("0x...")] for a text made of ["0x"] prefixes (lower-case
    [x]) and hexadecimal digits, such as the self-test sample: every ["0x"]
    is dropped and each remaining hexadecimal digit gives four bits.  Other
    spellings the library knows (an upper-case prefix, other bases) are
    outside this definition. *)
Definition hex_digit_value (c : ascii) : option Z :=
  let n := ord c in
  if (48 <=? n) && (n <=? 57) then Some (n - 48)
  else if (65 <=? n) && (n <=? 70) then Some (n - 55)
  else if (97 <=? n) && (n <=? 102) then Some (n - 87)
  else None.

Definition nibble (v : Z) : list bool :=
  [Z.testbit v 3; Z.testbit v 2; Z.testbit v 1; Z.testbit v 0].

Fixpoint BitStream_hex (s : string) : result BitStream :=
  match s with
  | EmptyString => Ok []
  | String "0"%char (String "x"%char rest) => BitStream_hex rest
  | String c rest =>
      match hex_digit_value c with
      | Some v => bits <- BitStream_hex rest ;; Ok (nibble v ++ bits)
      | None => Raise CreationError
      end
  end.

(** ** [iec_61162/part_1/sentences.py] *)

(** *** Helper functions *)

Definition iec_checksum (data : string) : result Z :=
  first <- str_item data 0 ;;
  let d := if str_in first ["$"; "!"]%string then str_from data 1 else data in
  let checksum := 0 in
  let checksum :=
    fold_left (fun checksum c => Z.lxor checksum (ord c))
              (list_ascii_of_string d) checksum in
  Ok checksum.

Definition iec_ascii_6b_to_8b (bs : BitStream) : result string :=
  let n_char := bs_len bs / 6 in
  let pos := 0%nat in
  char_lst <- readlist_uint 6 (Z.to_nat n_char) bs pos ;;
  let char_lst :=
    map (fun char => if char <? 40 then char + 48 else char + 56) char_lst in
  Ok (join_chr char_lst).

(** *** Sentence definitions *)

Module BBMSentence.
Record t : Type := mk {
  n_sentences : Z;
  i_sentence : Z;
  sequential_id : Z;
  channel : Z;
  msg_id : Z;
  payload : String.string;
  n_fill_bits : Z;
  talker_id : String.string
}.

Definition formatter_code : String.string := "BBM".

Definition string (self : t) : result String.string :=
  let s :=
    ("!" ++ talker_id self ++ formatter_code
         ++ "," ++ fmt_d (n_sentences self)
         ++ "," ++ fmt_d (i_sentence self)
         ++ "," ++ fmt_d (sequential_id self)
         ++ "," ++ fmt_d (channel self)
         ++ "," ++ fmt_d (msg_id self)
         ++ "," ++ payload self
         ++ "," ++ fmt_d (n_fill_bits self))%string in
  checksum <- iec_checksum s ;;
  Ok (s ++ "*" ++ fmt_r02X checksum ++ CRLF)%string.
End BBMSentence.

Module VDMSentence.
Record t : Type := mk {
  n_sentences : Z;
  i_sentence : Z;
  sequential_id : Z;
  channel : String.string;
  payload : String.string;
  n_fill_bits : Z;
  talker_id : String.string
}.

Definition formatter_code : String.string := "VDM".

Definition string (self : t) : result String.string :=
  let s :=
    ("!" ++ talker_id self ++ formatter_code
         ++ "," ++ fmt_d (n_sentences self)
         ++ "," ++ fmt_d (i_sentence self)
         ++ "," ++ fmt_d (sequential_id self)
         ++ "," ++ channel self
         ++ "," ++ payload self
         ++ "," ++ fmt_d (n_fill_bits self))%string in
  checksum <- iec_checksum s ;;
  Ok (s ++ "*" ++ fmt_r02X checksum ++ CRLF)%string.
End VDMSentence.

(** *** Sentence generation *)

(** The [while i_sentence <= n_sentences] loop of
    [ais_msg_bs_to_vdm_sentences]; its arguments are the variables the loop
    reads, and the last three are the ones it updates. *)
Equations? vdm_while (payload : string) (max_payload_char n_sentences : Z)
    (sequential_id : Z) (channel : string) (n_fill_bits : Z) (talker_id : string)
    (i_sentence payload_offset : Z) (sentences : list VDMSentence.t)
  : list VDMSentence.t by wf (Z.to_nat (n_sentences + 1 - i_sentence)) lt :=
  vdm_while payload max_payload_char n_sentences sequential_id channel
            n_fill_bits talker_id i_sentence payload_offset sentences
    with Z_le_gt_dec i_sentence n_sentences := {
    | left _ =>
        let vdm_sentence :=
          VDMSentence.mk n_sentences i_sentence sequential_id channel
            (str_slice payload payload_offset (payload_offset + max_payload_char))
            n_fill_bits talker_id in
        vdm_while payload max_payload_char n_sentences sequential_id channel
                  n_fill_bits talker_id
                  (i_sentence + 1) (payload_offset + max_payload_char)
                  (sentences ++ [vdm_sentence])
    | right _ => sentences }.
Proof. lia. Qed.

Definition ais_msg_bs_to_vdm_sentences (msg_bs : BitStream)
    (sequential_id : Z) (channel : string) (talker_id : string)
  : result (list VDMSentence.t) :=
  let n_bits := bs_len msg_bs in
  let n_fill_bits := (6 - (n_bits mod 6)) mod 6 in
  let msg_bs := msg_bs ++ BitStream_zeros n_fill_bits in
  payload <- iec_ascii_6b_to_8b msg_bs ;;
  let i_sentence := 1 in
  let payload_offset := 0 in
  let max_payload_char := 60 in
  let n_sentences := ceil (true_div (len payload) max_payload_char) in
  let sentences := [] in
  Ok (vdm_while payload max_payload_char n_sentences sequential_id channel
                n_fill_bits talker_id i_sentence payload_offset sentences).

(** The [while] loop of [asm_payload_bs_to_bbm_sentences].

    In both functions [bs += BitStream(n_fill_bits)] also extends the
    caller's bit stream in place; the functions here return the sentences
    only, as nothing below looks at the argument after the call. *)
Equations? bbm_while (payload : string) (max_payload_char n_sentences : Z)
    (sequential_id channel msg_id n_fill_bits : Z) (talker_id : string)
    (i_sentence payload_offset : Z) (sentences : list BBMSentence.t)
  : list BBMSentence.t by wf (Z.to_nat (n_sentences + 1 - i_sentence)) lt :=
  bbm_while payload max_payload_char n_sentences sequential_id channel msg_id
            n_fill_bits talker_id i_sentence payload_offset sentences
    with Z_le_gt_dec i_sentence n_sentences := {
    | left _ =>
        let bbm_sentence :=
          BBMSentence.mk n_sentences i_sentence sequential_id channel msg_id
            (str_slice payload payload_offset (payload_offset + max_payload_char))
            n_fill_bits talker_id in
        bbm_while payload max_payload_char n_sentences sequential_id channel
                  msg_id n_fill_bits talker_id
                  (i_sentence + 1) (payload_offset + max_payload_char)
                  (sentences ++ [bbm_sentence])
    | right _ => sentences }.
Proof. lia. Qed.

Definition asm_payload_bs_to_bbm_sentences (bs : BitStream)
    (sequential_id channel msg_id : Z) (talker_id : string)
  : result (list BBMSentence.t) :=
  let n_bits := bs_len bs in
  let n_fill_bits := (6 - (n_bits mod 6)) mod 6 in
  let bs := bs ++ BitStream_zeros n_fill_bits in
  payload <- iec_ascii_6b_to_8b bs ;;
  let i_sentence := 1 in
  let payload_offset := 0 in
  let max_payload_char := 57 in
  let n_sentences := ceil (true_div (len payload) max_payload_char) in
  let sentences := [] in
  Ok (bbm_while payload max_payload_char n_sentences sequential_id channel
                msg_id n_fill_bits talker_id i_sentence payload_offset sentences).

Module SentenceGenerator.
Record t : Type := mk {
  talker_id : string;
  vdm_sequential_id : Z;
  bbm_sequential_id : Z
}.

(** [__init__] *)
Definition init (talker_id : string) : t :=
  {| talker_id := talker_id; vdm_sequential_id := 0; bbm_sequential_id := 0 |}.

Definition set_bbm_sequential_id (self : t) (v : Z) : t :=
  {| talker_id := talker_id self;
     vdm_sequential_id := vdm_sequential_id self;
     bbm_sequential_id := v |}.

(** Returns the list of sentence groups and the generator after the call. *)
Definition generate_bbm (self : t) (asm_payload_bs : BitStream)
    (channel msg_id : Z) : result (list (list BBMSentence.t) * t) :=
  bbm_sentences <-
    asm_payload_bs_to_bbm_sentences asm_payload_bs (bbm_sequential_id self)
      channel msg_id (talker_id self) ;;
  let self :=
    if Z.of_nat (List.length bbm_sentences) >? 1
    then set_bbm_sequential_id self ((bbm_sequential_id self + 1) mod 10)
    else self in
  Ok ([bbm_sentences], self).
End SentenceGenerator.

(** ** [iec_61162/part_450/messages.py] *)

(** A message embeds any object that has a [string] property. *)
Class Sentence (A : Type) : Type := sentence_string : A -> result string.

#[export] Instance BBMSentence_Sentence : Sentence BBMSentence.t :=
  BBMSentence.string.
#[export] Instance VDMSentence_Sentence : Sentence VDMSentence.t :=
  VDMSentence.string.

Definition BACKSLASH : string := String (ascii_of_nat 92) EmptyString.

Module IEC61162450Message.
Section Message.
Context {A : Type}.

Record t : Type := mk {
  i_sentence : Z;
  n_sentences : Z;
  group_id : Z;
  source_id : String.string;
  sentence : A
}.

Definition string `{Sentence A} (self : t) : result String.string :=
  let tag :=
    ("g:" ++ fmt_d (i_sentence self)
          ++ "-" ++ fmt_d (n_sentences self)
          ++ "-" ++ fmt_d (group_id self)
          ++ ",s:" ++ source_id self)%string in
  tag_checksum <- iec_checksum tag ;;
  sentence_str <- sentence_string (sentence self) ;;
  Ok (BACKSLASH ++ tag ++ "*" ++ fmt_r02X tag_checksum
                ++ BACKSLASH ++ sentence_str)%string.
End Message.
Arguments t A : clear implicits.
End IEC61162450Message.

Module MessageGenerator.
Record t : Type := mk {
  source_id : string;
  group_id : Z
}.

(** [__init__] *)
Definition init (source_id : string) : t :=
  {| source_id := source_id; group_id := 0 |}.

Definition set_group_id (self : t) (v : Z) : t :=
  {| source_id := source_id self; group_id := v |}.

Section generate.
Context {A : Type}.

(** The body of [for sentence in group]: the loop state is
    [(i_sentence, messages)]. *)
Definition sentence_step (self : t) (n_sentences : Z)
    (st : Z * list (IEC61162450Message.t A)) (sentence : A)
  : Z * list (IEC61162450Message.t A) :=
  let '(i_sentence, messages) := st in
  let iec_msg :=
    IEC61162450Message.mk i_sentence n_sentences (group_id self)
      (source_id self) sentence in
  let i_sentence := i_sentence + 1 in
  (i_sentence, messages ++ [iec_msg]).

(** The body of [for group in sentences]: the loop state is
    [(messages, self)]. *)
Definition group_step (st : list (IEC61162450Message.t A) * t)
    (group : list A) : list (IEC61162450Message.t A) * t :=
  let '(messages, self) := st in
  let self := set_group_id self (group_id self + 1) in
  let self := if group_id self >? 99 then set_group_id self 1 else self in
  let i_sentence := 1 in
  let n_sentences := Z.of_nat (List.length group) in
  let '(_, messages) :=
    fold_left (sentence_step self n_sentences) group (i_sentence, messages) in
  (messages, self).

(** Returns the messages and the generator after the call. *)
Definition generate_msg (self : t) (sentences : list (list A))
  : list (IEC61162450Message.t A) * t :=
  let messages := [] in
  fold_left group_step sentences (messages, self).
End generate.
End MessageGenerator.

(** ** Clients of the two modules *)

(** A sequence of [generate_msg] calls on one generator: the result of
    every call, in order, and the generator after the last one. *)
Fixpoint generate_msg_calls {A : Type} (self : MessageGenerator.t)
    (calls : list (list (list A)))
  : list (list (IEC61162450Message.t A)) * MessageGenerator.t :=
  match calls with
  | [] => ([], self)
  | sentences :: calls' =>
      let '(messages, self) := MessageGenerator.generate_msg self sentences in
      let '(rest, self) := generate_msg_calls self calls' in
      (messages :: rest, self)
  end.

(** The sample data of the self-test of both modules:
    [BitStream("0x123456789ABCDEF"*15)]. *)
Definition sample_asm_payload_bs : result BitStream :=
  BitStream_hex (str_repeat "0x123456789ABCDEF" 15).

(** ** Specification-side notions *)

(** The XOR of the character codes of a string, left to right, from 0. *)
Definition xor_codes (s : string) : Z :=
  fold_left (fun acc c => Z.lxor acc (ord c)) (list_ascii_of_string s) 0.

(** The two sentinel characters. *)
Definition is_sentinel (c : ascii) : bool :=
  (Ascii.eqb c "$" || Ascii.eqb c "!")%bool.

(** A string begins with a sentinel character. *)
Definition starts_with_sentinel (s : string) : bool :=
  match s with
  | EmptyString => false
  | String c _ => is_sentinel c
  end.

(** The two-digit upper-case hexadecimal numeral of a byte. *)
Definition two_hex_digits (v : Z) : string :=
  String (hex_digit_upper (v / 16)) (String (hex_digit_upper (v mod 16)) EmptyString).

(** The value of an upper-case hexadecimal digit. *)
Definition upper_hex_value (c : ascii) : option Z :=
  let n := ord c in
  if (48 <=? n) && (n <=? 57) then Some (n - 48)
  else if (65 <=? n) && (n <=? 70) then Some (n - 55)
  else None.

(** The grammar of a binary-broadcast sentence, as the interface
    description words it: the text between the leading [!] and the [*] is
    the talker id and formatter code followed by the seven fields, joined
    by commas. *)
Definition bbm_fields (b : BBMSentence.t) : list string :=
  [ fmt_d (BBMSentence.n_sentences b);
    fmt_d (BBMSentence.i_sentence b);
    fmt_d (BBMSentence.sequential_id b);
    fmt_d (BBMSentence.channel b);
    fmt_d (BBMSentence.msg_id b);
    BBMSentence.payload b;
    fmt_d (BBMSentence.n_fill_bits b) ].

Definition bbm_body (b : BBMSentence.t) : string :=
  String.concat ","
    ((BBMSentence.talker_id b ++ BBMSentence.formatter_code)%string :: bbm_fields b).

Definition bbm_grammar (b : BBMSentence.t) : string :=
  ("!" ++ bbm_body b ++ "*" ++ two_hex_digits (xor_codes (bbm_body b)) ++ CRLF)%string.

(** The three checksums of a concatenation: of [a], of [b] and of
    [a + b]. *)
Definition checksums (a b : string) (x y z : Z) : Prop :=
  iec_checksum a = Ok x /\ iec_checksum b = Ok y /\
  iec_checksum (a ++ b) = Ok z.

(** The first [count] consecutive groups of [w] bits of a bit sequence. *)
Fixpoint groups_of (w count : nat) (bits : list bool) : list (list bool) :=
  match count with
  | O => []
  | S k => firstn w bits :: groups_of w k (skipn w bits)
  end.

(** The character code of a 6-bit value in the armouring alphabet. *)
Definition armour_code (v : Z) : Z := if v <? 40 then v + 48 else v + 56.

(** The integers [lo, lo + 1, ..., hi]. *)
Definition zrange (lo hi : Z) : list Z :=
  map (fun k => lo + Z.of_nat k) (seq 0 (Z.to_nat (hi + 1 - lo))).

(** Fragment [i] (1-indexed) of an armoured string cut every [max_chars]
    characters. *)
Definition fragment (armored : string) (max_chars i : Z) : string :=
  str_slice armored ((i - 1) * max_chars) (i * max_chars).

(** The strings of a list, joined in order. *)
Definition join (l : list string) : string := fold_right append EmptyString l.

(** What it means for [frags] to be the fragments of [armored] for a
    maximum chunk size: their number is the ceiling of
    [len armored / max_chars], fragment [i] is the [i]-th slice, every
    fragment but the last is full, and together they give back [armored]. *)
Definition fragmentation (max_chars : Z) (armored : string) (frags : list string)
  : Prop :=
  let total_count := Z.of_nat (List.length frags) in
  max_chars * (total_count - 1) < len armored <= max_chars * total_count /\
  (forall i : Z, 1 <= i <= total_count ->
     nth_error frags (Z.to_nat (i - 1)) = Some (fragment armored max_chars i)) /\
  (forall (i : Z) (f : string), 1 <= i < total_count ->
     nth_error frags (Z.to_nat (i - 1)) = Some f -> len f = max_chars) /\
  join frags = armored.

(** The group id that follows [id]: [id == 99 ? 1 : id + 1]. *)
Definition next_group_id (id : Z) : Z := if id =? 99 then 1 else id + 1.

(** The group id of the [k]-th group a fresh generator processes
    ([k = 1] for the first one); the counter starts from 0. *)
Definition nth_group_id (k : nat) : Z := Nat.iter k next_group_id 0.

(** What the generator's update does to any counter value. *)
Definition advance (id : Z) : Z := if id + 1 >? 99 then 1 else id + 1.

(** The messages of one group: one per sentence, numbered from 1, all with
    the group's size, the same group id and the same source id. *)
Definition group_messages {A : Type} (group_id : Z) (source_id : string)
    (group : list A) : list (IEC61162450Message.t A) :=
  map (fun '(i, sentence) =>
         IEC61162450Message.mk i (Z.of_nat (List.length group)) group_id
           source_id sentence)
      (combine (zrange 1 (Z.of_nat (List.length group))) group).

(** The messages of a sequence of groups when [k] groups were processed
    before: the next group is group [k + 1]. *)
Fixpoint expected_messages {A : Type} (source_id : string) (k : nat)
    (groups : list (list A)) : list (IEC61162450Message.t A) :=
  match groups with
  | [] => []
  | group :: groups' =>
      (group_messages (nth_group_id (S k)) source_id group
       ++ expected_messages source_id (S k) groups')%list
  end.

(** The results of a sequence of calls when [k] groups were processed
    before the first of them. *)
Fixpoint expected_results {A : Type} (source_id : string) (k : nat)
    (calls : list (list (list A))) : list (list (IEC61162450Message.t A)) :=
  match calls with
  | [] => []
  | sentences :: calls' =>
      expected_messages source_id k sentences
      :: expected_results source_id (k + List.length sentences) calls'
  end.

(** Encoding the self-test sample with [channel=1], [msg_id=8] and the
    default talker id: the sample has [n_bits] bits, needs no fill bit, its
    armoured string has [armored_len] characters and the payloads of the
    BBM sentences have the lengths [fragment_lens]. *)
Definition sample_encoding (n_bits armored_len : Z) (fragment_lens : list Z)
  : Prop :=
  exists (bs : BitStream) (armored : string) (bbm : list BBMSentence.t),
    sample_asm_payload_bs = Ok bs /\
    bs_len bs = n_bits /\
    (6 - bs_len bs mod 6) mod 6 = 0 /\
    iec_ascii_6b_to_8b (bs ++ BitStream_zeros ((6 - bs_len bs mod 6) mod 6)) =
      Ok armored /\
    len armored = armored_len /\
    asm_payload_bs_to_bbm_sentences bs 0 1 8 "AI" = Ok bbm /\
    map (fun s => len (BBMSentence.payload s)) bbm = fragment_lens.

(** *** Further clients and notions

    What follows serves the properties of the code beyond its interface
    description. *)

(** [asm_payload_bs_to_bbm_sentences] with its effect on the argument made
    visible: [bs += BitStream(n_fill_bits)] appends to the caller's object,
    so the function is given here as returning, beside the sentences, the
    bit stream the caller holds after the call. *)
Definition asm_payload_bs_to_bbm_sentences_inplace (bs : BitStream)
    (sequential_id channel msg_id : Z) (talker_id : string)
  : result (list BBMSentence.t * BitStream) :=
  let n_bits := bs_len bs in
  let n_fill_bits := (6 - (n_bits mod 6)) mod 6 in
  let bs := bs ++ BitStream_zeros n_fill_bits in
  payload <- iec_ascii_6b_to_8b bs ;;
  let i_sentence := 1 in
  let payload_offset := 0 in
  let max_payload_char := 57 in
  let n_sentences := ceil (true_div (len payload) max_payload_char) in
  let sentences := [] in
  Ok (bbm_while payload max_payload_char n_sentences sequential_id channel
                msg_id n_fill_bits talker_id i_sentence payload_offset sentences,
      bs).

(** A sequence of [generate_bbm] calls on one generator, each with its
    payload, channel and message id: the result of every call, in order,
    and the generator after the last one. *)
Fixpoint generate_bbm_calls (self : SentenceGenerator.t)
    (calls : list (BitStream * Z * Z))
  : result (list (list (list BBMSentence.t)) * SentenceGenerator.t) :=
  match calls with
  | [] => Ok ([], self)
  | (asm_payload_bs, channel, msg_id) :: calls' =>
      r <- SentenceGenerator.generate_bbm self asm_payload_bs channel msg_id ;;
      rs <- generate_bbm_calls (snd r) calls' ;;
      Ok (fst r :: fst rs, snd rs)
  end.

(** The number of payloads of a sequence of calls that need more than one
    BBM sentence: those of more than 342 bits. *)
Definition multi_sentence_calls (calls : list (BitStream * Z * Z)) : Z :=
  Z.of_nat (List.length
              (filter (fun call => 342 <? bs_len (fst (fst call))) calls)).

(** The grammar of a data-link sentence. *)
Definition vdm_fields (v : VDMSentence.t) : list string :=
  [ fmt_d (VDMSentence.n_sentences v);
    fmt_d (VDMSentence.i_sentence v);
    fmt_d (VDMSentence.sequential_id v);
    VDMSentence.channel v;
    VDMSentence.payload v;
    fmt_d (VDMSentence.n_fill_bits v) ].

Definition vdm_body (v : VDMSentence.t) : string :=
  String.concat ","
    ((VDMSentence.talker_id v ++ VDMSentence.formatter_code)%string :: vdm_fields v).

Definition vdm_grammar (v : VDMSentence.t) : string :=
  ("!" ++ vdm_body v ++ "*" ++ two_hex_digits (xor_codes (vdm_body v)) ++ CRLF)%string.

(** The TAG block of a message, between the two backslashes and before the
    [*]: [g:<order>-<size>-<group id>,s:<source id>]. *)
Definition message_tag {A : Type} (m : IEC61162450Message.t A) : string :=
  ("g:" ++ fmt_d (IEC61162450Message.i_sentence m)
        ++ "-" ++ fmt_d (IEC61162450Message.n_sentences m)
        ++ "-" ++ fmt_d (IEC61162450Message.group_id m)
        ++ ",s:" ++ IEC61162450Message.source_id m)%string.

(** The message string around a given sentence string. *)
Definition message_grammar {A : Type} (m : IEC61162450Message.t A)
    (sentence_str : string) : string :=
  (BACKSLASH ++ message_tag m ++ "*" ++ two_hex_digits (xor_codes (message_tag m))
             ++ BACKSLASH ++ sentence_str)%string.

(** A character of the armouring alphabet: code 48..87 or 96..119. *)
Definition armour_char (c : ascii) : Prop :=
  48 <= ord c <= 87 \/ 96 <= ord c <= 119.

(** A decoder for armoured strings (the code has none): the 6-bit value of
    a character and its six bits, most significant first. *)
Definition dearmour_code (c : Z) : Z := if c <? 88 then c - 48 else c - 56.

Definition bits6 (v : Z) : list bool :=
  [Z.testbit v 5; Z.testbit v 4; Z.testbit v 3;
   Z.testbit v 2; Z.testbit v 1; Z.testbit v 0].

Definition dearmour (s : string) : list bool :=
  flat_map (fun c => bits6 (dearmour_code (ord c))) (list_ascii_of_string s).

(** A BBM sentence with another fill-bit count. *)
Definition with_n_fill_bits (v : Z) (s : BBMSentence.t) : BBMSentence.t :=
  BBMSentence.mk (BBMSentence.n_sentences s) (BBMSentence.i_sentence s)
    (BBMSentence.sequential_id s) (BBMSentence.channel s)
    (BBMSentence.msg_id s) (BBMSentence.payload s) v (BBMSentence.talker_id s).

(** ** Sentence strings over code points

    A Python [str] holds Unicode code points, and neither [iec_checksum]
    nor the sentence classes restrict them.  Where the size of a character
    matters (the width of the printed checksum), the checksum and the BBM
    sentence string are given again here over lists of code points.
    Numerals and literals are ASCII, and are taken from the 8-bit model. *)
Module CodePoints.

(** A [str]: the code points of its characters, in order. *)
Definition str : Type := list Z.

(** Every character is a code point: 0 to 0x10FFFF. *)
Definition well_formed (s : str) : Prop :=
  Forall (fun c => 0 <= c <= 1114111) s.

(** The code points of a string of 8-bit characters. *)
Definition of_string (s : string) : str := map ord (list_ascii_of_string s).

Definition iec_checksum (data : str) : result Z :=
  match nth_error data 0 with
  | None => Raise IndexError
  | Some first =>
      let d :=
        if existsb (Z.eqb first) [ord "$"%char; ord "!"%char]
        then skipn 1 data else data in
      let checksum := 0 in
      let checksum :=
        fold_left (fun checksum c => Z.lxor checksum c) d checksum in
      Ok checksum
  end.

Module BBMSentence.
Record t : Type := mk {
  n_sentences : Z;
  i_sentence : Z;
  sequential_id : Z;
  channel : Z;
  msg_id : Z;
  payload : str;
  n_fill_bits : Z;
  talker_id : str
}.

Definition formatter_code : str := of_string "BBM".

Definition string (self : t) : result str :=
  let s :=
    (of_string "!" ++ talker_id self ++ formatter_code
       ++ of_string "," ++ of_string (fmt_d (n_sentences self))
       ++ of_string "," ++ of_string (fmt_d (i_sentence self))
       ++ of_string "," ++ of_string (fmt_d (sequential_id self))
       ++ of_string "," ++ of_string (fmt_d (channel self))
       ++ of_string "," ++ of_string (fmt_d (msg_id self))
       ++ of_string "," ++ payload self
       ++ of_string "," ++ of_string (fmt_d (n_fill_bits self)))%list in
  checksum <- iec_checksum s ;;
  Ok (s ++ of_string "*" ++ of_string (fmt_r02X checksum) ++ of_string CRLF)%list.
End BBMSentence.

(** *** Specification-side notions over code points *)

(** The XOR of the code points of a string, left to right, from 0. *)
Definition xor_codes (s : str) : Z := fold_left Z.lxor s 0.

(** The strings of a list, separated by [sep]. *)
Definition join_with (sep : str) (l : list str) : str :=
  match l with
  | [] => []
  | x :: xs => (x ++ flat_map (fun y => sep ++ y) xs)%list
  end.

(** The text of a BBM sentence between the leading [!] and the [*]. *)
Definition bbm_body (b : BBMSentence.t) : str :=
  join_with (of_string ",")
    [ (BBMSentence.talker_id b ++ BBMSentence.formatter_code)%list;
      of_string (fmt_d (BBMSentence.n_sentences b));
      of_string (fmt_d (BBMSentence.i_sentence b));
      of_string (fmt_d (BBMSentence.sequential_id b));
      of_string (fmt_d (BBMSentence.channel b));
      of_string (fmt_d (BBMSentence.msg_id b));
      BBMSentence.payload b;
      of_string (fmt_d (BBMSentence.n_fill_bits b)) ].

(** The sentence with [digits] in the place of the checksum. *)
Definition bbm_frame (b : BBMSentence.t) (digits : str) : str :=
  (of_string "!" ++ bbm_body b ++ of_string "*" ++ digits
     ++ of_string CRLF)%list.

(** The value of the code point of an upper-case hexadecimal digit. *)
Definition upper_hex_value (c : Z) : option Z :=
  if (48 <=? c) && (c <=? 57) then Some (c - 48)
  else if (65 <=? c) && (c <=? 70) then Some (c - 55)
  else None.

(** The sentence renders with a checksum of exactly two upper-case
    hexadecimal digits, which denote the checksum of the body. *)
Definition two_digit_grammar (b : BBMSentence.t) : Prop :=
  exists h1 h2 v1 v2 : Z,
    BBMSentence.string b = Ok (bbm_frame b [h1; h2]) /\
    upper_hex_value h1 = Some v1 /\ upper_hex_value h2 = Some v2 /\
    16 * v1 + v2 = xor_codes (bbm_body b).

(** All characters have a code below 256. *)
Definition eight_bit (s : str) : Prop := Forall (fun c => 0 <= c < 256) s.

(** A sentence with a talker id that begins with the euro sign
    (U+20AC). *)
Definition euro_sentence : BBMSentence.t :=
  BBMSentence.mk 1 1 0 1 8 (of_string "Beam me up - Scotty") 5 [8364; 73].
End CodePoints.

(** A sentence of 8-bit strings, as a sentence over code points. *)
Definition code_points_of_BBMSentence (b : BBMSentence.t)
  : CodePoints.BBMSentence.t :=
  CodePoints.BBMSentence.mk
    (BBMSentence.n_sentences b) (BBMSentence.i_sentence b)
    (BBMSentence.sequential_id b) (BBMSentence.channel b)
    (BBMSentence.msg_id b) (CodePoints.of_string (BBMSentence.payload b))
    (BBMSentence.n_fill_bits b) (CodePoints.of_string (BBMSentence.talker_id b)).

(** ** Strings: lengths, slices and concatenation *)

Lemma length_append (a b : string) :
  String.length (a ++ b) = (String.length a + String.length b)%nat.
Proof. induction a as [|c a IH]; simpl; [reflexivity | now rewrite IH]. Qed.

Lemma len_nonneg (s : string) : 0 <= len s.
Proof. unfold len. lia. Qed.

Lemma list_ascii_of_string_append (a b : string) :
  list_ascii_of_string (a ++ b) =
  (list_ascii_of_string a ++ list_ascii_of_string b)%list.
Proof. induction a as [|c a IH]; simpl; [reflexivity | now rewrite IH]. Qed.

Lemma append_assoc (a b c : string) : ((a ++ b) ++ c = a ++ (b ++ c))%string.
Proof. induction a as [|x a IH]; simpl; [reflexivity | now rewrite IH]. Qed.

Lemma substring_all (s : string) : substring 0 (String.length s) s = s.
Proof. induction s as [|c s IH]; simpl; [reflexivity | now rewrite IH]. Qed.

Lemma substring_zero_length (n : nat) (s : string) : substring n 0 s = EmptyString.
Proof.
  revert n; induction s as [|c s IH]; intros [|n]; simpl; auto.
Qed.

Lemma length_substring (n m : nat) (s : string) :
  String.length (substring n m s) = Nat.min m (String.length s - n).
Proof.
  revert n m; induction s as [|c s IH]; intros n m.
  - destruct n, m; reflexivity.
  - destruct n as [|n]; simpl.
    + destruct m as [|m]; simpl; [reflexivity | now rewrite IH, Nat.sub_0_r].
    + apply IH.
Qed.

(** Two adjacent substrings make one. *)
Lemma substring_split (n m k : nat) (s : string) :
  (substring n m s ++ substring (n + m) k s)%string = substring n (m + k) s.
Proof.
  revert n m k; induction s as [|c s IH]; intros n m k.
  - destruct n, m, k; reflexivity.
  - destruct n as [|n]; simpl.
    + destruct m as [|m]; simpl.
      * destruct k; reflexivity.
      * now rewrite <- (IH 0%nat m k).
    + apply IH.
Qed.

Lemma str_from_1_cons (c : ascii) (s : string) : str_from (String c s) 1 = s.
Proof.
  unfold str_from, str_slice, slice_bound, len; simpl String.length.
  replace (1 <? 0) with false by reflexivity.
  destruct (Z.ltb_spec (Z.of_nat (S (String.length s))) 0) as [H|_]; [lia|].
  rewrite Z.min_id, Z.min_l by lia.
  replace (Z.to_nat 1) with 1%nat by reflexivity.
  replace (Z.to_nat (Z.of_nat (S (String.length s)) - 1)) with (String.length s) by lia.
  simpl. apply substring_all.
Qed.

Lemma str_item_0_cons (c : ascii) (s : string) :
  str_item (String c s) 0 = Ok (String c EmptyString).
Proof.
  unfold str_item, len; simpl String.length.
  replace (0 <? 0) with false by reflexivity.
  replace (0 <=? 0) with true by reflexivity.
  destruct (Z.ltb_spec 0 (Z.of_nat (S (String.length s)))) as [_|H]; [|lia].
  reflexivity.
Qed.

Lemma str_in_sentinels (c : ascii) :
  str_in (String c EmptyString) ["$"; "!"]%string = is_sentinel c.
Proof.
  unfold str_in, is_sentinel; simpl.
  rewrite orb_false_r.
  destruct (c =? "$")%char eqn:E1, (c =? "!")%char eqn:E2; reflexivity.
Qed.

(** ** The checksum *)

Lemma xor_fold_from (l : list ascii) (a : Z) :
  fold_left (fun acc c => Z.lxor acc (ord c)) l a =
  Z.lxor a (fold_left (fun acc c => Z.lxor acc (ord c)) l 0).
Proof.
  revert a; induction l as [|c l IH]; intro a; simpl.
  - now rewrite Z.lxor_0_r.
  - rewrite (IH (Z.lxor a (ord c))), (IH (ord c)). apply Z.lxor_assoc.
Qed.

Lemma xor_codes_cons (c : ascii) (s : string) :
  xor_codes (String c s) = Z.lxor (ord c) (xor_codes s).
Proof. unfold xor_codes; simpl. apply xor_fold_from. Qed.

Lemma xor_codes_append (a b : string) :
  xor_codes (a ++ b) = Z.lxor (xor_codes a) (xor_codes b).
Proof.
  unfold xor_codes. rewrite list_ascii_of_string_append, fold_left_app.
  apply xor_fold_from.
Qed.

(** What [iec_checksum] returns on a non-empty string. *)
Lemma iec_checksum_cons (c : ascii) (s : string) :
  iec_checksum (String c s) =
  Ok (if is_sentinel c then xor_codes s else xor_codes (String c s)).
Proof.
  unfold iec_checksum. rewrite str_item_0_cons. cbn [bind].
  rewrite str_in_sentinels, str_from_1_cons.
  destruct (is_sentinel c); reflexivity.
Qed.

Lemma ord_range (c : ascii) : 0 <= ord c < 256.
Proof.
  unfold ord. pose proof (N_ascii_bounded c) as H.
  split; [apply N2Z.is_nonneg | lia].
Qed.

Lemma lxor_byte (a b : Z) :
  0 <= a < 256 -> 0 <= b < 256 -> 0 <= Z.lxor a b < 256.
Proof.
  intros Ha Hb.
  assert (Hn : 0 <= Z.lxor a b) by (apply Z.lxor_nonneg; lia).
  split; [exact Hn|].
  destruct (Z.eq_dec (Z.lxor a b) 0) as [E|E]; [lia|].
  change 256 with (2 ^ 8). apply Z.log2_lt_pow2; [lia|].
  pose proof (Z.log2_lxor a b ltac:(lia) ltac:(lia)) as Hl.
  assert (La : Z.log2 a < 8).
  { destruct (Z.eq_dec a 0) as [Ea|Ea]; [rewrite Ea; reflexivity|].
    apply Z.log2_lt_pow2; [lia | change (2 ^ 8) with 256; lia]. }
  assert (Lb : Z.log2 b < 8).
  { destruct (Z.eq_dec b 0) as [Eb|Eb]; [rewrite Eb; reflexivity|].
    apply Z.log2_lt_pow2; [lia | change (2 ^ 8) with 256; lia]. }
  lia.
Qed.

Lemma xor_codes_range (s : string) : 0 <= xor_codes s < 256.
Proof.
  induction s as [|c s IH].
  - unfold xor_codes; simpl; lia.
  - rewrite xor_codes_cons. apply lxor_byte; [apply ord_range | exact IH].
Qed.

(** ** Number formatting *)

Lemma hex_upper_digit (n : Z) :
  n < 16 -> hex_upper n = String (hex_digit_upper n) EmptyString.
Proof.
  intro H. rewrite hex_upper_equation_1.
  destruct (Z_lt_ge_dec n 16) as [L|G]; [reflexivity | lia].
Qed.

Lemma hex_upper_step (n : Z) :
  16 <= n ->
  hex_upper n =
  (hex_upper (n / 16) ++ String (hex_digit_upper (n mod 16)) EmptyString)%string.
Proof.
  intro H. rewrite hex_upper_equation_1.
  destruct (Z_lt_ge_dec n 16) as [L|G]; [lia | reflexivity].
Qed.

(** On a byte, ["{:>02X}"] gives exactly two upper-case hex digits. *)
Lemma fmt_r02X_byte (v : Z) :
  0 <= v < 256 -> fmt_r02X v = two_hex_digits v.
Proof.
  intros [H0 H1]. unfold fmt_r02X, fmt_X, two_hex_digits, rjust.
  destruct (Z.ltb_spec v 0) as [N|_]; [lia|].
  destruct (Z_lt_ge_dec v 16) as [L|G].
  - rewrite hex_upper_digit by exact L.
    rewrite Z.div_small, Z.mod_small by lia. reflexivity.
  - rewrite hex_upper_step by lia.
    assert (1 <= v / 16 < 16).
    { split; [apply Z.div_le_lower_bound | apply Z.div_lt_upper_bound]; lia. }
    rewrite hex_upper_digit by lia. reflexivity.
Qed.

Lemma hex_digit_upper_value (d : Z) :
  0 <= d < 16 -> upper_hex_value (hex_digit_upper d) = Some d.
Proof.
  intros [H0 H1].
  assert (In d (map Z.of_nat (seq 0 16))) as Hin.
  { apply in_map_iff. exists (Z.to_nat d). split; [lia|]. apply in_seq. lia. }
  revert Hin.
  assert (F : Forall (fun d => upper_hex_value (hex_digit_upper d) = Some d)
                     (map Z.of_nat (seq 0 16))).
  { repeat constructor. }
  rewrite Forall_forall in F. apply F.
Qed.

(** ** Sentence strings *)

Lemma two_hex_digits_decode (v : Z) :
  0 <= v < 256 ->
  exists (h1 h2 : ascii) (v1 v2 : Z),
    two_hex_digits v = String h1 (String h2 EmptyString) /\
    upper_hex_value h1 = Some v1 /\ upper_hex_value h2 = Some v2 /\
    16 * v1 + v2 = v.
Proof.
  intros [H0 H1].
  exists (hex_digit_upper (v / 16)), (hex_digit_upper (v mod 16)), (v / 16), (v mod 16).
  assert (0 <= v / 16 < 16).
  { split; [apply Z.div_pos | apply Z.div_lt_upper_bound]; lia. }
  pose proof (Z.mod_pos_bound v 16 ltac:(lia)).
  repeat split.
  - now apply hex_digit_upper_value.
  - now apply hex_digit_upper_value.
  - pose proof (Z.div_mod v 16 ltac:(lia)). lia.
Qed.

(** Over 8-bit characters, a binary-broadcast sentence renders as [!], the
    talker id, the three-letter formatter code, the seven comma-separated
    fields, [*], two upper-case hexadecimal digits and CRLF; the two digits
    are the checksum of the text between the [!] and the [*]. *)
Lemma BBMSentence_string_grammar (b : BBMSentence.t) :
  BBMSentence.string b = Ok (bbm_grammar b) /\
  BBMSentence.formatter_code = "BBM"%string /\
  iec_checksum ("!" ++ bbm_body b) = Ok (xor_codes (bbm_body b)) /\
  exists (h1 h2 : ascii) (v1 v2 : Z),
    two_hex_digits (xor_codes (bbm_body b)) = String h1 (String h2 EmptyString) /\
    upper_hex_value h1 = Some v1 /\ upper_hex_value h2 = Some v2 /\
    16 * v1 + v2 = xor_codes (bbm_body b).
Proof.
  assert (C : iec_checksum ("!" ++ bbm_body b) = Ok (xor_codes (bbm_body b))).
  { change ("!" ++ bbm_body b)%string with (String "!" (bbm_body b)).
    now rewrite iec_checksum_cons. }
  split; [|split; [reflexivity|split; [exact C|]]].
  - unfold BBMSentence.string.
    set (s := ("!" ++ _)%string).
    assert (E : s = ("!" ++ bbm_body b)%string).
    { subst s. unfold bbm_body, bbm_fields. cbn [String.concat].
      now rewrite append_assoc. }
    rewrite E, C. cbn [bind].
    rewrite fmt_r02X_byte by apply xor_codes_range.
    reflexivity.
  - apply two_hex_digits_decode, xor_codes_range.
Qed.

(** ** The checksum on empty input and on concatenations *)

(** C6: on the empty string [iec_checksum] raises [IndexError], while a
    string that is empty after the sentinel is stripped gives 0. *)
Theorem iec_checksum_empty_raises :
  iec_checksum EmptyString = Raise IndexError /\
  iec_checksum "$" = Ok 0 /\ iec_checksum "!" = Ok 0.
Proof. repeat split. Qed.

(** X2: on every non-empty string the checksum is defined: it is the XOR of
    the codes of the characters left after one leading sentinel is dropped,
    and it fits in a byte. *)
Theorem iec_checksum_nonempty (data : string) :
  data <> EmptyString ->
  exists (c : ascii) (rest : string),
    data = String c rest /\
    iec_checksum data =
      Ok (xor_codes (if is_sentinel c then rest else data)) /\
    0 <= xor_codes (if is_sentinel c then rest else data) < 256.
Proof.
  destruct data as [|c rest]; [congruence|]. intros _.
  exists c, rest. rewrite iec_checksum_cons.
  destruct (is_sentinel c); repeat split; apply xor_codes_range.
Qed.

Lemma iec_checksum_nonempty_witness :
  exists (c : ascii) (rest : string),
    "!AIBBM"%string = String c rest /\
    iec_checksum "!AIBBM" =
      Ok (xor_codes (if is_sentinel c then rest else "!AIBBM"%string)) /\
    0 <= xor_codes (if is_sentinel c then rest else "!AIBBM"%string) < 256.
Proof. apply (iec_checksum_nonempty "!AIBBM"%string). discriminate. Defined.

(** The checksum of [a + b] when [a] is not empty: the leading sentinel of
    [a], if any, is the only character dropped on both sides, so the
    difference between the two sides is the XOR of what [b] loses. *)
Lemma iec_checksum_append (a b : string) :
  a <> EmptyString -> b <> EmptyString ->
  exists x y z : Z,
    checksums a b x y z /\
    z = Z.lxor (Z.lxor x y)
               (match b with
                | String c _ => if is_sentinel c then ord c else 0
                | EmptyString => 0
                end).
Proof.
  destruct a as [|c a]; [congruence|]. destruct b as [|d b]; [congruence|].
  intros _ _. unfold checksums.
  change (String c a ++ String d b)%string with (String c (a ++ String d b)).
  rewrite !iec_checksum_cons.
  do 3 eexists. split; [repeat split |].
  destruct (is_sentinel c), (is_sentinel d);
    rewrite ?xor_codes_cons, ?xor_codes_append, ?xor_codes_cons.
  - rewrite (Z.lxor_comm (ord d) (xor_codes b)), Z.lxor_assoc. reflexivity.
  - now rewrite Z.lxor_0_r.
  - rewrite (Z.lxor_comm (ord d) (xor_codes b)), !Z.lxor_assoc. reflexivity.
  - now rewrite Z.lxor_0_r, ?Z.lxor_assoc.
Qed.

Lemma sentinel_code_nonzero (c : ascii) : is_sentinel c = true -> ord c <> 0.
Proof.
  unfold is_sentinel. intro H. apply orb_true_iff in H.
  destruct H as [H|H]; apply Ascii.eqb_eq in H; subst c; discriminate.
Qed.

(** C9: for non-empty [a] and [b] that do not begin with a sentinel, the
    checksum of [a + b] is the XOR of the checksums of [a] and [b]; and
    there are non-empty strings, with [a] beginning with a sentinel that is
    stripped, for which it is not.  In every such pair [b] begins with a
    sentinel as well: the theorem after this one gives the exact
    condition. *)
Theorem iec_checksum_concat :
  (forall a b : string,
     a <> EmptyString -> b <> EmptyString ->
     starts_with_sentinel a = false -> starts_with_sentinel b = false ->
     exists x y z : Z, checksums a b x y z /\ z = Z.lxor x y) /\
  (exists a b : string,
     a <> EmptyString /\ b <> EmptyString /\
     starts_with_sentinel a = true /\ starts_with_sentinel (a ++ b) = true /\
     exists x y z : Z, checksums a b x y z /\ z <> Z.lxor x y).
Proof.
  split.
  - intros a b Ha Hb _ Sb.
    destruct (iec_checksum_append a b Ha Hb) as (x & y & z & C & E).
    exists x, y, z. split; [exact C|].
    destruct b as [|d b]; [congruence|]. simpl in Sb. rewrite Sb in E.
    now rewrite Z.lxor_0_r in E.
  - exists "$GP"%string, "!AI"%string.
    repeat split; try discriminate.
    exists 23, 8, 62. unfold checksums.
    split; [repeat split | discriminate].
Qed.

Lemma iec_checksum_concat_witness :
  exists x y z : Z, checksums "AIBBM" ",1,1" x y z /\ z = Z.lxor x y.
Proof.
  apply (proj1 iec_checksum_concat "AIBBM"%string ",1,1"%string);
    [discriminate | discriminate | reflexivity | reflexivity].
Defined.

(** X1: for non-empty [a] and [b], the checksum of [a + b] is the XOR of the two
    checksums exactly when [b] does not begin with a sentinel. *)
Theorem iec_checksum_concat_iff (a b : string) :
  a <> EmptyString -> b <> EmptyString ->
  exists x y z : Z,
    checksums a b x y z /\
    (z = Z.lxor x y <-> starts_with_sentinel b = false).
Proof.
  intros Ha Hb. destruct (iec_checksum_append a b Ha Hb) as (x & y & z & C & E).
  exists x, y, z. split; [exact C|].
  destruct b as [|d b]; [congruence|]. simpl starts_with_sentinel.
  destruct (is_sentinel d) eqn:S.
  - split; [|discriminate]. intro Z0. exfalso.
    apply (sentinel_code_nonzero d S).
    rewrite Z0 in E. symmetry in E.
    apply (f_equal (Z.lxor (Z.lxor x y))) in E.
    rewrite <- Z.lxor_assoc, Z.lxor_nilpotent, Z.lxor_0_l in E. exact E.
  - rewrite Z.lxor_0_r in E. split; auto.
Qed.

Lemma iec_checksum_concat_iff_witness :
  exists x y z : Z,
    checksums "$GP" "GGA" x y z /\
    (z = Z.lxor x y <-> starts_with_sentinel "GGA" = false).
Proof.
  apply (iec_checksum_concat_iff "$GP"%string "GGA"%string); discriminate.
Defined.

(** ** Armouring *)

Lemma fill_bits_range (n : Z) :
  0 <= (6 - n mod 6) mod 6 <= 5 /\ (n + (6 - n mod 6) mod 6) mod 6 = 0.
Proof.
  pose proof (Z.mod_pos_bound n 6 ltac:(lia)) as Hn.
  pose proof (Z.mod_pos_bound (6 - n mod 6) 6 ltac:(lia)) as Hf.
  split; [lia|].
  rewrite Zplus_mod_idemp_r.
  replace (n + (6 - n mod 6)) with (6 + (n - n mod 6)) by lia.
  rewrite (Z.div_mod n 6) at 1 by lia.
  replace (6 + (6 * (n / 6) + n mod 6 - n mod 6)) with ((n / 6 + 1) * 6) by lia.
  apply Z.mod_mul. lia.
Qed.

Lemma bs_len_padded (bs : BitStream) (fill : Z) :
  0 <= fill -> bs_len (bs ++ BitStream_zeros fill) = bs_len bs + fill.
Proof.
  intro H. unfold bs_len, BitStream_zeros.
  rewrite length_app, repeat_length. lia.
Qed.

Lemma groups_of_partition (w count : nat) (bits : list bool) :
  List.length bits = (w * count)%nat ->
  List.concat (groups_of w count bits) = bits /\
  Forall (fun g => List.length g = w) (groups_of w count bits).
Proof.
  revert bits; induction count as [|k IH]; intros bits Hl; simpl.
  - rewrite Nat.mul_0_r in Hl. apply length_zero_iff_nil in Hl. now subst.
  - destruct (IH (skipn w bits)) as [Hc Hf].
    { rewrite length_skipn. lia. }
    split.
    + rewrite Hc. apply firstn_skipn.
    + constructor; [|exact Hf]. rewrite length_firstn. lia.
Qed.

Lemma length_groups_of (w count : nat) (bits : list bool) :
  List.length (groups_of w count bits) = count.
Proof.
  revert bits; induction count as [|k IH]; intro bits; simpl; [reflexivity|].
  now rewrite IH.
Qed.

(** Reading [count] fields of [w] bits when enough bits are left. *)
Lemma readlist_uint_groups (w count : nat) (bs : BitStream) (pos : nat) :
  (pos + w * count <= List.length bs)%nat ->
  readlist_uint w count bs pos = Ok (map uint (groups_of w count (skipn pos bs))).
Proof.
  revert pos; induction count as [|k IH]; intros pos Hl; simpl; [reflexivity|].
  unfold read_uint.
  assert (E : List.length (firstn w (skipn pos bs)) = w).
  { rewrite length_firstn, length_skipn. lia. }
  rewrite E, Nat.eqb_refl. cbn [bind fst snd].
  rewrite IH by lia. cbn [bind].
  now rewrite skipn_skipn, (Nat.add_comm w pos).
Qed.

Lemma uint_fold_from (field : list bool) (a : Z) :
  fold_left (fun v (b : bool) => 2 * v + Z.b2z b) field a =
  a * 2 ^ Z.of_nat (List.length field) + uint field.
Proof.
  unfold uint. revert a; induction field as [|b field IH]; intro a.
  - simpl. lia.
  - cbn [fold_left List.length]. rewrite (IH (2 * a + Z.b2z b)), (IH (2 * 0 + Z.b2z b)).
    rewrite Nat2Z.inj_succ, Z.pow_succ_r by lia. ring.
Qed.

Lemma uint_range (field : list bool) :
  0 <= uint field < 2 ^ Z.of_nat (List.length field).
Proof.
  induction field as [|b field IH].
  - unfold uint; simpl; lia.
  - unfold uint in *. cbn [fold_left List.length].
    rewrite uint_fold_from. fold (uint field) in IH |- *.
    rewrite Nat2Z.inj_succ, Z.pow_succ_r by lia.
    destruct b; simpl Z.b2z; lia.
Qed.

(** A field is read most significant bit first. *)
Lemma uint_msb_first (b5 b4 b3 b2 b1 b0 : bool) :
  uint [b5; b4; b3; b2; b1; b0] =
  32 * Z.b2z b5 + 16 * Z.b2z b4 + 8 * Z.b2z b3 + 4 * Z.b2z b2
  + 2 * Z.b2z b1 + Z.b2z b0.
Proof. unfold uint; cbn [fold_left]. lia. Qed.

Lemma ord_chr (v : Z) : 0 <= v < 256 -> ord (chr v) = v.
Proof.
  intro H. unfold ord, chr. rewrite N_ascii_embedding; lia.
Qed.

Lemma length_string_of_list_ascii (l : list ascii) :
  String.length (string_of_list_ascii l) = List.length l.
Proof. induction l as [|c l IH]; simpl; [reflexivity | now rewrite IH]. Qed.

(** [iec_ascii_6b_to_8b] on a bit stream whose length is a multiple of 6. *)
Lemma iec_ascii_6b_to_8b_groups (bs : BitStream) :
  bs_len bs mod 6 = 0 ->
  let groups := groups_of 6 (Z.to_nat (bs_len bs / 6)) bs in
  List.concat groups = bs /\
  Forall (fun g => List.length g = 6%nat) groups /\
  iec_ascii_6b_to_8b bs =
    Ok (string_of_list_ascii (map (fun g => chr (armour_code (uint g))) groups)).
Proof.
  intros Hm groups.
  assert (Hl : List.length bs = (6 * Z.to_nat (bs_len bs / 6))%nat).
  { unfold bs_len in *. pose proof (Z.div_mod (Z.of_nat (List.length bs)) 6 ltac:(lia)).
    lia. }
  destruct (groups_of_partition 6 _ bs Hl) as [Hc Hf].
  split; [exact Hc|]. split; [exact Hf|].
  unfold iec_ascii_6b_to_8b.
  rewrite readlist_uint_groups by (simpl; lia).
  cbn [bind skipn]. unfold join_chr. rewrite !map_map. reflexivity.
Qed.

Lemma armour_code_range (v : Z) :
  0 <= v <= 63 -> 48 <= armour_code v <= 119 /\ ord (chr (armour_code v)) = armour_code v.
Proof.
  intro H. unfold armour_code.
  destruct (Z.ltb_spec v 40); (split; [lia | apply ord_chr; lia]).
Qed.

(** Armouring a bit stream padded with [(6 - n mod 6) mod 6] zero bits: the
    padded bits are cut into consecutive groups of 6, each read most
    significant bit first as a value [v] in 0..63 and mapped to the
    character of code [v + 48] when [v < 40] and [v + 56] otherwise; the
    armoured string has [(n + fill) / 6] characters. *)
Lemma iec_armouring_groups (bs : BitStream) :
  let n := bs_len bs in
  let fill := (6 - n mod 6) mod 6 in
  let padded := (bs ++ BitStream_zeros fill)%list in
  0 <= fill <= 5 /\ bs_len padded = n + fill /\ (n + fill) mod 6 = 0 /\
  exists (groups : list (list bool)) (armored : string),
    List.concat groups = padded /\
    Forall (fun g => List.length g = 6%nat) groups /\
    iec_ascii_6b_to_8b padded = Ok armored /\
    list_ascii_of_string armored =
      map (fun g => chr (if uint g <? 40 then uint g + 48 else uint g + 56)) groups /\
    Forall (fun g =>
              0 <= uint g <= 63 /\
              (forall b5 b4 b3 b2 b1 b0 : bool,
                 g = [b5; b4; b3; b2; b1; b0] ->
                 uint g = 32 * Z.b2z b5 + 16 * Z.b2z b4 + 8 * Z.b2z b3
                          + 4 * Z.b2z b2 + 2 * Z.b2z b1 + Z.b2z b0) /\
              ord (chr (if uint g <? 40 then uint g + 48 else uint g + 56)) =
                (if uint g <? 40 then uint g + 48 else uint g + 56)) groups /\
    len armored = (n + fill) / 6.
Proof.
  intros n fill padded.
  destruct (fill_bits_range n) as [Hf Hm]. fold fill in Hf, Hm.
  assert (Hl : bs_len padded = n + fill) by (apply bs_len_padded; lia).
  split; [exact Hf|]. split; [exact Hl|]. split; [exact Hm|].
  destruct (iec_ascii_6b_to_8b_groups padded) as (Hc & Hg & Ha).
  { now rewrite Hl. }
  set (groups := groups_of 6 (Z.to_nat (bs_len padded / 6)) padded) in *.
  eexists groups, _. split; [exact Hc|]. split; [exact Hg|].
  split; [exact Ha|]. split; [|split].
  - now rewrite list_ascii_of_string_of_list_ascii.
  - rewrite Forall_forall in Hg |- *. intros g Hin.
    pose proof (uint_range g) as Hr. rewrite (Hg g Hin) in Hr.
    change (2 ^ Z.of_nat 6) with 64 in Hr.
    split; [lia|]. split.
    + intros b5 b4 b3 b2 b1 b0 ->. apply uint_msb_first.
    + apply (armour_code_range (uint g)). lia.
  - unfold len. rewrite length_string_of_list_ascii, length_map.
    unfold groups. rewrite length_groups_of, Hl.
    assert (0 <= n) by (unfold n, bs_len; lia).
    rewrite Z2Nat.id; [reflexivity|]. apply Z.div_pos; lia.
Qed.

(** ** Fragmentation *)

Lemma ceil_true_div_eq (a b : Z) : 0 < b -> ceil (true_div a b) = - ((- a) / b).
Proof.
  intro Hb. destruct b as [|p|p]; try lia.
  unfold ceil, true_div, Qceiling, Qfloor, Qdiv, Qmult, Qinv, Qopp, inject_Z.
  cbn [Qnum Qden]. rewrite Z.mul_1_r, Pos.mul_1_l. reflexivity.
Qed.

(** [ceil (a / b)] is the least [n] with [a <= b * n]. *)
Lemma ceil_true_div_spec (a b : Z) :
  0 < b -> b * (ceil (true_div a b) - 1) < a <= b * ceil (true_div a b).
Proof.
  intro Hb. rewrite ceil_true_div_eq by exact Hb.
  pose proof (Z.div_mod (- a) b ltac:(lia)).
  pose proof (Z.mod_pos_bound (- a) b ltac:(lia)).
  lia.
Qed.

Lemma ceil_true_div_nonneg (a b : Z) :
  0 < b -> 0 <= a -> 0 <= ceil (true_div a b).
Proof.
  intros Hb Ha. pose proof (ceil_true_div_spec a b Hb). nia.
Qed.

Lemma zrange_nil (lo hi : Z) : hi < lo -> zrange lo hi = [].
Proof.
  intro H. unfold zrange. replace (Z.to_nat (hi + 1 - lo)) with 0%nat by lia.
  reflexivity.
Qed.

Lemma zrange_cons (lo hi : Z) : lo <= hi -> zrange lo hi = lo :: zrange (lo + 1) hi.
Proof.
  intro H. unfold zrange.
  replace (Z.to_nat (hi + 1 - lo)) with (S (Z.to_nat (hi + 1 - (lo + 1)))) by lia.
  cbn [seq map]. f_equal; [lia|].
  rewrite <- seq_shift, map_map. apply map_ext. intro k. lia.
Qed.

Lemma length_zrange (lo hi : Z) :
  List.length (zrange lo hi) = Z.to_nat (hi + 1 - lo).
Proof. unfold zrange. now rewrite length_map, length_seq. Qed.

Lemma nth_error_zrange (lo hi : Z) (k : nat) :
  (k < Z.to_nat (hi + 1 - lo))%nat ->
  nth_error (zrange lo hi) k = Some (lo + Z.of_nat k).
Proof.
  intro H. unfold zrange. rewrite nth_error_map.
  rewrite nth_error_seq. destruct (Nat.ltb_spec k (Z.to_nat (hi + 1 - lo))); [|lia].
  reflexivity.
Qed.

Lemma nth_error_map_zrange {B : Type} (f : Z -> B) (lo hi : Z) (k : nat) (b : B) :
  nth_error (map f (zrange lo hi)) k = Some b ->
  (k < Z.to_nat (hi + 1 - lo))%nat /\ b = f (lo + Z.of_nat k).
Proof.
  intro H.
  assert (Hk : (k < Z.to_nat (hi + 1 - lo))%nat).
  { rewrite <- (length_zrange lo hi), <- (length_map f).
    apply nth_error_Some. congruence. }
  split; [exact Hk|].
  rewrite nth_error_map, nth_error_zrange in H by exact Hk.
  cbn [option_map] in H. congruence.
Qed.

Lemma len_str_slice (s : string) (lo hi : Z) :
  0 <= lo <= hi ->
  len (str_slice s lo hi) = Z.min hi (len s) - Z.min lo (len s).
Proof.
  intros [H0 H1]. unfold str_slice, slice_bound.
  destruct (Z.ltb_spec lo 0); [lia|]. destruct (Z.ltb_spec hi 0); [lia|].
  unfold len. rewrite length_substring. lia.
Qed.

Lemma str_slice_split (s : string) (a b c : Z) :
  0 <= a <= b -> b <= c ->
  (str_slice s a b ++ str_slice s b c)%string = str_slice s a c.
Proof.
  intros [H0 H1] H2. unfold str_slice, slice_bound.
  destruct (Z.ltb_spec a 0); [lia|]. destruct (Z.ltb_spec b 0); [lia|].
  destruct (Z.ltb_spec c 0); [lia|].
  pose proof (len_nonneg s).
  replace (Z.to_nat (Z.min b (len s)))
    with (Z.to_nat (Z.min a (len s)) + Z.to_nat (Z.min b (len s) - Z.min a (len s)))%nat
    by lia.
  rewrite substring_split. f_equal. lia.
Qed.

Lemma str_slice_empty (s : string) (a : Z) : str_slice s a a = EmptyString.
Proof.
  unfold str_slice. rewrite Z.sub_diag. apply substring_zero_length.
Qed.

Lemma str_slice_whole (s : string) (c : Z) : len s <= c -> str_slice s 0 c = s.
Proof.
  intro H. pose proof (len_nonneg s). unfold str_slice, slice_bound.
  replace (0 <? 0) with false by reflexivity.
  destruct (Z.ltb_spec c 0); [lia|].
  rewrite Z.min_l, Z.min_r, Z.sub_0_r by lia.
  unfold len. rewrite Nat2Z.id. apply substring_all.
Qed.

Lemma join_fragments (armored : string) (max_chars lo hi : Z) :
  0 < max_chars -> 1 <= lo <= hi + 1 ->
  join (map (fragment armored max_chars) (zrange lo hi)) =
  str_slice armored ((lo - 1) * max_chars) (hi * max_chars).
Proof.
  intros Hm Hr.
  remember (Z.to_nat (hi + 1 - lo)) as k eqn:Hk.
  revert lo Hr Hk; induction k as [|k IH]; intros lo Hr Hk.
  - rewrite zrange_nil by lia. replace (lo - 1) with hi by lia.
    now rewrite str_slice_empty.
  - rewrite zrange_cons by lia. cbn [map join fold_right].
    fold (join (map (fragment armored max_chars) (zrange (lo + 1) hi))).
    rewrite IH by lia. unfold fragment.
    replace (lo + 1 - 1) with lo by lia.
    apply str_slice_split; nia.
Qed.

Lemma len_fragment_full (armored : string) (max_chars i : Z) :
  0 < max_chars -> 1 <= i -> i * max_chars <= len armored ->
  len (fragment armored max_chars i) = max_chars.
Proof.
  intros Hm Hi Hl. unfold fragment. rewrite len_str_slice by nia. nia.
Qed.

(** The slices of [armored] numbered 1 to the ceiling of
    [len armored / max_chars] are a fragmentation of it. *)
Lemma fragmentation_zrange (armored : string) (max_chars : Z) :
  0 < max_chars ->
  fragmentation max_chars armored
    (map (fragment armored max_chars)
         (zrange 1 (ceil (true_div (len armored) max_chars)))).
Proof.
  intro Hm. pose proof (len_nonneg armored) as Hl.
  pose proof (ceil_true_div_spec (len armored) max_chars Hm) as Hc.
  pose proof (ceil_true_div_nonneg (len armored) max_chars Hm Hl) as Hn.
  set (n := ceil (true_div (len armored) max_chars)) in *.
  unfold fragmentation. rewrite length_map, length_zrange.
  replace (Z.of_nat (Z.to_nat (n + 1 - 1))) with n by lia.
  split; [exact Hc|]. split; [|split].
  - intros i Hi. rewrite nth_error_map, nth_error_zrange by lia.
    cbn [option_map]. do 2 f_equal. lia.
  - intros i f Hi. rewrite nth_error_map, nth_error_zrange by lia.
    cbn [option_map]. intro E.
    replace (1 + Z.of_nat (Z.to_nat (i - 1))) with i in E by lia.
    injection E as <-.
    assert (i * max_chars <= (n - 1) * max_chars)
      by (apply Z.mul_le_mono_nonneg_r; lia).
    apply len_fragment_full; lia.
  - rewrite join_fragments by lia.
    replace ((1 - 1) * max_chars) with 0 by lia.
    apply str_slice_whole. lia.
Qed.

(** ** The sentence loops *)

Lemma bbm_while_step payload max_payload_char n_sentences sequential_id channel
    msg_id n_fill_bits talker_id i_sentence payload_offset sentences :
  i_sentence <= n_sentences ->
  bbm_while payload max_payload_char n_sentences sequential_id channel msg_id
            n_fill_bits talker_id i_sentence payload_offset sentences =
  bbm_while payload max_payload_char n_sentences sequential_id channel msg_id
            n_fill_bits talker_id (i_sentence + 1)
            (payload_offset + max_payload_char)
            (sentences ++
             [BBMSentence.mk n_sentences i_sentence sequential_id channel msg_id
                (str_slice payload payload_offset (payload_offset + max_payload_char))
                n_fill_bits talker_id]).
Proof.
  intro H. rewrite bbm_while_equation_1.
  destruct (Z_le_gt_dec i_sentence n_sentences) as [L|G]; [reflexivity | lia].
Qed.

Lemma bbm_while_exit payload max_payload_char n_sentences sequential_id channel
    msg_id n_fill_bits talker_id i_sentence payload_offset sentences :
  i_sentence > n_sentences ->
  bbm_while payload max_payload_char n_sentences sequential_id channel msg_id
            n_fill_bits talker_id i_sentence payload_offset sentences = sentences.
Proof.
  intro H. rewrite bbm_while_equation_1.
  destruct (Z_le_gt_dec i_sentence n_sentences) as [L|G]; [lia | reflexivity].
Qed.

(** The loop appends one sentence per index from [i_sentence] to
    [n_sentences], each with the next slice of the payload. *)
Lemma bbm_while_zrange payload max_payload_char n_sentences sequential_id channel
    msg_id n_fill_bits talker_id i_sentence payload_offset sentences :
  bbm_while payload max_payload_char n_sentences sequential_id channel msg_id
            n_fill_bits talker_id i_sentence payload_offset sentences =
  (sentences ++
   map (fun j =>
          BBMSentence.mk n_sentences j sequential_id channel msg_id
            (str_slice payload
               (payload_offset + (j - i_sentence) * max_payload_char)
               (payload_offset + (j - i_sentence) * max_payload_char
                + max_payload_char))
            n_fill_bits talker_id)
       (zrange i_sentence n_sentences))%list.
Proof.
  remember (Z.to_nat (n_sentences + 1 - i_sentence)) as k eqn:Hk.
  revert i_sentence payload_offset sentences Hk.
  induction k as [|k IH]; intros i off acc Hk.
  - rewrite bbm_while_exit by lia. rewrite zrange_nil by lia.
    cbn [map]. now rewrite app_nil_r.
  - rewrite bbm_while_step by lia. rewrite IH by lia.
    rewrite (zrange_cons i) by lia. cbn [map].
    rewrite <- app_assoc. cbn [app]. f_equal.
    f_equal.
    + f_equal; f_equal; lia.
    + apply map_ext. intro j. f_equal; f_equal; lia.
Qed.

Lemma vdm_while_step payload max_payload_char n_sentences sequential_id channel
    n_fill_bits talker_id i_sentence payload_offset sentences :
  i_sentence <= n_sentences ->
  vdm_while payload max_payload_char n_sentences sequential_id channel
            n_fill_bits talker_id i_sentence payload_offset sentences =
  vdm_while payload max_payload_char n_sentences sequential_id channel
            n_fill_bits talker_id (i_sentence + 1)
            (payload_offset + max_payload_char)
            (sentences ++
             [VDMSentence.mk n_sentences i_sentence sequential_id channel
                (str_slice payload payload_offset (payload_offset + max_payload_char))
                n_fill_bits talker_id]).
Proof.
  intro H. rewrite vdm_while_equation_1.
  destruct (Z_le_gt_dec i_sentence n_sentences) as [L|G]; [reflexivity | lia].
Qed.

Lemma vdm_while_exit payload max_payload_char n_sentences sequential_id channel
    n_fill_bits talker_id i_sentence payload_offset sentences :
  i_sentence > n_sentences ->
  vdm_while payload max_payload_char n_sentences sequential_id channel
            n_fill_bits talker_id i_sentence payload_offset sentences = sentences.
Proof.
  intro H. rewrite vdm_while_equation_1.
  destruct (Z_le_gt_dec i_sentence n_sentences) as [L|G]; [lia | reflexivity].
Qed.

Lemma vdm_while_zrange payload max_payload_char n_sentences sequential_id channel
    n_fill_bits talker_id i_sentence payload_offset sentences :
  vdm_while payload max_payload_char n_sentences sequential_id channel
            n_fill_bits talker_id i_sentence payload_offset sentences =
  (sentences ++
   map (fun j =>
          VDMSentence.mk n_sentences j sequential_id channel
            (str_slice payload
               (payload_offset + (j - i_sentence) * max_payload_char)
               (payload_offset + (j - i_sentence) * max_payload_char
                + max_payload_char))
            n_fill_bits talker_id)
       (zrange i_sentence n_sentences))%list.
Proof.
  remember (Z.to_nat (n_sentences + 1 - i_sentence)) as k eqn:Hk.
  revert i_sentence payload_offset sentences Hk.
  induction k as [|k IH]; intros i off acc Hk.
  - rewrite vdm_while_exit by lia. rewrite zrange_nil by lia.
    cbn [map]. now rewrite app_nil_r.
  - rewrite vdm_while_step by lia. rewrite IH by lia.
    rewrite (zrange_cons i) by lia. cbn [map].
    rewrite <- app_assoc. cbn [app]. f_equal.
    f_equal.
    + f_equal; f_equal; lia.
    + apply map_ext. intro j. f_equal; f_equal; lia.
Qed.

(** ** The sentence generation functions *)

(** Armouring the padded bit stream never raises. *)
Lemma armoured_payload_defined (bs : BitStream) :
  exists armored : string,
    iec_ascii_6b_to_8b (bs ++ BitStream_zeros ((6 - bs_len bs mod 6) mod 6)) =
    Ok armored.
Proof.
  destruct (fill_bits_range (bs_len bs)) as [Hf Hm].
  destruct (iec_ascii_6b_to_8b_groups
              (bs ++ BitStream_zeros ((6 - bs_len bs mod 6) mod 6))) as (_ & _ & Ha).
  { rewrite bs_len_padded by lia. exact Hm. }
  eexists. exact Ha.
Qed.

(** The sentences [asm_payload_bs_to_bbm_sentences] returns, in closed
    form. *)
Lemma asm_payload_bs_to_bbm_sentences_spec (bs : BitStream)
    (sequential_id channel msg_id : Z) (talker_id : string) (armored : string) :
  iec_ascii_6b_to_8b (bs ++ BitStream_zeros ((6 - bs_len bs mod 6) mod 6)) =
    Ok armored ->
  asm_payload_bs_to_bbm_sentences bs sequential_id channel msg_id talker_id =
  Ok (map (fun i =>
             BBMSentence.mk (ceil (true_div (len armored) 57)) i sequential_id
               channel msg_id (fragment armored 57 i)
               ((6 - bs_len bs mod 6) mod 6) talker_id)
          (zrange 1 (ceil (true_div (len armored) 57)))).
Proof.
  intro Ha. unfold asm_payload_bs_to_bbm_sentences. rewrite Ha. cbn [bind].
  rewrite bbm_while_zrange. cbn [app]. f_equal.
  apply map_ext. intro i. unfold fragment. f_equal. f_equal; lia.
Qed.

Lemma ais_msg_bs_to_vdm_sentences_spec (msg_bs : BitStream)
    (sequential_id : Z) (channel talker_id : string) (armored : string) :
  iec_ascii_6b_to_8b (msg_bs ++ BitStream_zeros ((6 - bs_len msg_bs mod 6) mod 6)) =
    Ok armored ->
  ais_msg_bs_to_vdm_sentences msg_bs sequential_id channel talker_id =
  Ok (map (fun i =>
             VDMSentence.mk (ceil (true_div (len armored) 60)) i sequential_id
               channel (fragment armored 60 i)
               ((6 - bs_len msg_bs mod 6) mod 6) talker_id)
          (zrange 1 (ceil (true_div (len armored) 60)))).
Proof.
  intro Ha. unfold ais_msg_bs_to_vdm_sentences. rewrite Ha. cbn [bind].
  rewrite vdm_while_zrange. cbn [app]. f_equal.
  apply map_ext. intro i. unfold fragment. f_equal. f_equal; lia.
Qed.

(** C3: the payloads of the sentences built from a bit stream are the
    fragments of its armoured string: [ceil (length / max_chars)] of them,
    the [i]-th being [armored[(i-1)*max_chars : i*max_chars]], all but the
    last of length [max_chars], and concatenated in order they give the
    armoured string; [max_chars] is 57 for BBM and 60 for VDM sentences. *)
Theorem sentences_fragment_payload (bs : BitStream)
    (sequential_id channel msg_id : Z) (vdm_channel talker_id : string) :
  exists (armored : string) (bbm : list BBMSentence.t) (vdm : list VDMSentence.t),
    iec_ascii_6b_to_8b (bs ++ BitStream_zeros ((6 - bs_len bs mod 6) mod 6)) =
      Ok armored /\
    asm_payload_bs_to_bbm_sentences bs sequential_id channel msg_id talker_id =
      Ok bbm /\
    ais_msg_bs_to_vdm_sentences bs sequential_id vdm_channel talker_id = Ok vdm /\
    Z.of_nat (List.length bbm) = ceil (true_div (len armored) 57) /\
    Z.of_nat (List.length vdm) = ceil (true_div (len armored) 60) /\
    fragmentation 57 armored (map BBMSentence.payload bbm) /\
    fragmentation 60 armored (map VDMSentence.payload vdm) /\
    (forall (i : Z) (s : BBMSentence.t),
       1 <= i -> nth_error bbm (Z.to_nat (i - 1)) = Some s ->
       BBMSentence.i_sentence s = i /\
       BBMSentence.n_sentences s = Z.of_nat (List.length bbm)) /\
    (forall (i : Z) (s : VDMSentence.t),
       1 <= i -> nth_error vdm (Z.to_nat (i - 1)) = Some s ->
       VDMSentence.i_sentence s = i /\
       VDMSentence.n_sentences s = Z.of_nat (List.length vdm)).
Proof.
  destruct (armoured_payload_defined bs) as [armored Ha].
  pose proof (len_nonneg armored) as Hl.
  exists armored. eexists. eexists.
  split; [exact Ha|].
  split; [apply (asm_payload_bs_to_bbm_sentences_spec _ _ _ _ _ _ Ha)|].
  split; [apply (ais_msg_bs_to_vdm_sentences_spec _ _ _ _ _ Ha)|].
  rewrite !length_map, !length_zrange, !map_map. cbn [BBMSentence.payload VDMSentence.payload].
  pose proof (ceil_true_div_nonneg (len armored) 57 ltac:(lia) Hl).
  pose proof (ceil_true_div_nonneg (len armored) 60 ltac:(lia) Hl).
  split; [lia|]. split; [lia|].
  split; [apply fragmentation_zrange; lia|].
  split; [apply fragmentation_zrange; lia|].
  split; intros i s Hi Hs; apply nth_error_map_zrange in Hs;
    destruct Hs as (Hk & ->);
    cbn [BBMSentence.i_sentence BBMSentence.n_sentences
         VDMSentence.i_sentence VDMSentence.n_sentences]; lia.
Qed.

(** C8: every sentence built from one payload carries the fill-bit count of
    that payload, whatever its position among the fragments. *)
Theorem sentences_share_fill_bits (bs : BitStream)
    (sequential_id channel msg_id : Z) (vdm_channel talker_id : string) :
  exists (bbm : list BBMSentence.t) (vdm : list VDMSentence.t),
    asm_payload_bs_to_bbm_sentences bs sequential_id channel msg_id talker_id =
      Ok bbm /\
    ais_msg_bs_to_vdm_sentences bs sequential_id vdm_channel talker_id = Ok vdm /\
    Forall (fun s => BBMSentence.n_fill_bits s = (6 - bs_len bs mod 6) mod 6) bbm /\
    Forall (fun s => VDMSentence.n_fill_bits s = (6 - bs_len bs mod 6) mod 6) vdm.
Proof.
  destruct (armoured_payload_defined bs) as [armored Ha].
  eexists. eexists.
  split; [apply (asm_payload_bs_to_bbm_sentences_spec _ _ _ _ _ _ Ha)|].
  split; [apply (ais_msg_bs_to_vdm_sentences_spec _ _ _ _ _ Ha)|].
  split; apply Forall_map, Forall_forall; intros; reflexivity.
Qed.

(** ** The message generator *)

Section MessageGeneratorFacts.
Context {A : Type}.

Lemma fold_sentence_step (self : MessageGenerator.t) (n_sentences : Z)
    (group : list A) (i_sentence : Z)
    (messages : list (IEC61162450Message.t A)) :
  fold_left (MessageGenerator.sentence_step self n_sentences) group
            (i_sentence, messages) =
  (i_sentence + Z.of_nat (List.length group),
   (messages ++
    map (fun '(i, sentence) =>
           IEC61162450Message.mk i n_sentences
             (MessageGenerator.group_id self)
             (MessageGenerator.source_id self) sentence)
        (combine (zrange i_sentence
                    (i_sentence + Z.of_nat (List.length group) - 1)) group))%list).
Proof.
  revert i_sentence messages.
  induction group as [|sentence group IH]; intros i messages.
  - cbn [fold_left List.length]. rewrite combine_nil.
    cbn [map]. rewrite app_nil_r. f_equal. lia.
  - cbn [fold_left]. unfold MessageGenerator.sentence_step at 2.
    rewrite IH. cbn [List.length]. rewrite (zrange_cons i) by lia.
    cbn [combine map]. rewrite <- app_assoc. cbn [app].
    replace (i + 1 + Z.of_nat (List.length group) - 1)
      with (i + Z.of_nat (S (List.length group)) - 1) by lia.
    f_equal. lia.
Qed.

Lemma group_step_spec (messages : list (IEC61162450Message.t A))
    (self : MessageGenerator.t) (group : list A) :
  MessageGenerator.group_step (messages, self) group =
  ((messages ++
    group_messages (advance (MessageGenerator.group_id self))
                   (MessageGenerator.source_id self) group)%list,
   MessageGenerator.set_group_id self (advance (MessageGenerator.group_id self))).
Proof.
  unfold MessageGenerator.group_step, advance.
  cbn [MessageGenerator.set_group_id MessageGenerator.group_id
       MessageGenerator.source_id].
  destruct (MessageGenerator.group_id self + 1 >? 99);
    rewrite fold_sentence_step;
    cbn [MessageGenerator.set_group_id MessageGenerator.group_id
         MessageGenerator.source_id];
    unfold group_messages;
    replace (1 + Z.of_nat (List.length group) - 1)
      with (Z.of_nat (List.length group)) by lia;
    reflexivity.
Qed.

(** Messages already collected are only ever appended to. *)
Lemma fold_group_step_acc (sentences : list (list A))
    (messages : list (IEC61162450Message.t A)) (self : MessageGenerator.t) :
  fold_left MessageGenerator.group_step sentences (messages, self) =
  ((messages ++ fst (MessageGenerator.generate_msg self sentences))%list,
   snd (MessageGenerator.generate_msg self sentences)).
Proof.
  unfold MessageGenerator.generate_msg.
  revert messages self; induction sentences as [|group sentences IH];
    intros messages self.
  - cbn [fold_left fst snd]. now rewrite app_nil_r.
  - cbn [fold_left]. rewrite !group_step_spec.
    rewrite IH. rewrite (IH ([] ++ _)%list). cbn [fst snd app].
    now rewrite app_assoc.
Qed.

Lemma generate_msg_cons (self : MessageGenerator.t) (group : list A)
    (sentences : list (list A)) :
  MessageGenerator.generate_msg self (group :: sentences) =
  let self' :=
    MessageGenerator.set_group_id self (advance (MessageGenerator.group_id self)) in
  ((group_messages (MessageGenerator.group_id self')
                   (MessageGenerator.source_id self) group
    ++ fst (MessageGenerator.generate_msg self' sentences))%list,
   snd (MessageGenerator.generate_msg self' sentences)).
Proof.
  unfold MessageGenerator.generate_msg at 1. cbn [fold_left].
  rewrite group_step_spec, fold_group_step_acc. reflexivity.
Qed.

Lemma generate_msg_app (self : MessageGenerator.t)
    (before after : list (list A)) :
  MessageGenerator.generate_msg self (before ++ after) =
  let r1 := MessageGenerator.generate_msg self before in
  let r2 := MessageGenerator.generate_msg (snd r1) after in
  ((fst r1 ++ fst r2)%list, snd r2).
Proof.
  unfold MessageGenerator.generate_msg at 1. rewrite fold_left_app.
  fold (MessageGenerator.generate_msg self before).
  destruct (MessageGenerator.generate_msg self before) as [m1 s1].
  rewrite fold_group_step_acc. reflexivity.
Qed.
End MessageGeneratorFacts.

Lemma nth_group_id_succ (k : nat) :
  nth_group_id (S k) = next_group_id (nth_group_id k).
Proof. reflexivity. Qed.

Lemma nth_group_id_range (k : nat) :
  0 <= nth_group_id k <= 99 /\ ((1 <= k)%nat -> 1 <= nth_group_id k).
Proof.
  induction k as [|k [IH _]].
  - split; [unfold nth_group_id; simpl; lia | lia].
  - rewrite nth_group_id_succ. unfold next_group_id.
    destruct (Z.eqb_spec (nth_group_id k) 99); lia.
Qed.

(** While the counter is in 0..99 the generator's update is
    [id == 99 ? 1 : id + 1]. *)
Lemma advance_next_group_id (id : Z) :
  0 <= id <= 99 -> advance id = next_group_id id.
Proof.
  intro H. unfold advance, next_group_id.
  destruct (Z.gtb_spec (id + 1) 99), (Z.eqb_spec id 99); lia.
Qed.

Lemma advance_changes (id : Z) : advance id <> id.
Proof. unfold advance. destruct (Z.gtb_spec (id + 1) 99); lia. Qed.

Lemma group_messages_group_id {A : Type} (gid : Z) (source_id : string)
    (group : list A) :
  Forall (fun m => IEC61162450Message.group_id m = gid)
         (group_messages gid source_id group).
Proof.
  unfold group_messages. apply Forall_map, Forall_forall.
  intros [i sentence] _. reflexivity.
Qed.

Lemma expected_messages_range {A : Type} (source_id : string) (k : nat)
    (groups : list (list A)) :
  Forall (fun m => 1 <= IEC61162450Message.group_id m <= 99)
         (expected_messages source_id k groups).
Proof.
  revert k; induction groups as [|group groups IH]; intro k; cbn [expected_messages].
  - constructor.
  - apply Forall_app. split; [|apply IH].
    eapply Forall_impl; [|apply group_messages_group_id].
    intros m ->. destruct (nth_group_id_range (S k)) as [H0 H1].
    specialize (H1 ltac:(lia)). lia.
Qed.

Lemma expected_results_range {A : Type} (source_id : string) (k : nat)
    (calls : list (list (list A))) :
  Forall (Forall (fun m => 1 <= IEC61162450Message.group_id m <= 99))
         (expected_results source_id k calls).
Proof.
  revert k; induction calls as [|sentences calls IH]; intro k; cbn [expected_results].
  - constructor.
  - constructor; [apply expected_messages_range | apply IH].
Qed.

(** One call on a generator that has processed [k] groups. *)
Lemma generate_msg_expected {A : Type} (source_id : string) (k : nat)
    (sentences : list (list A)) :
  MessageGenerator.generate_msg
    (MessageGenerator.mk source_id (nth_group_id k)) sentences =
  (expected_messages source_id k sentences,
   MessageGenerator.mk source_id (nth_group_id (k + List.length sentences))).
Proof.
  revert k; induction sentences as [|group sentences IH]; intro k.
  - cbn. now rewrite Nat.add_0_r.
  - rewrite generate_msg_cons. cbv zeta.
    unfold MessageGenerator.set_group_id.
    cbn [MessageGenerator.group_id MessageGenerator.source_id].
    rewrite advance_next_group_id by apply nth_group_id_range.
    rewrite <- nth_group_id_succ. rewrite IH.
    cbn [fst snd expected_messages List.length].
    now rewrite Nat.add_succ_r.
Qed.

(** A sequence of calls on a generator that has processed [k] groups. *)
Lemma generate_msgs_expected {A : Type} (source_id : string) (k : nat)
    (calls : list (list (list A))) :
  generate_msg_calls
    (MessageGenerator.mk source_id (nth_group_id k)) calls =
  (expected_results source_id k calls,
   MessageGenerator.mk source_id
     (nth_group_id (k + List.length (List.concat calls)))).
Proof.
  revert k; induction calls as [|sentences calls IH]; intro k.
  - cbn. now rewrite Nat.add_0_r.
  - cbn [generate_msg_calls]. rewrite generate_msg_expected, IH.
    cbn [expected_results List.concat]. rewrite length_app.
    now rewrite Nat.add_assoc.
Qed.

(** C2: from a fresh generator, the [k]-th group processed over any
    sequence of calls is given the [k]-th group id, where the ids start
    from 0 and advance by [id == 99 ? 1 : id + 1] before each group: the
    first group gets 1, every message carries an id in 1..99, the counter
    moves once per group whatever its size, and the messages of one group
    share their id. *)
Theorem generate_msg_group_ids {A : Type} (source_id : string)
    (calls : list (list (list A))) :
  generate_msg_calls (MessageGenerator.init source_id) calls =
    (expected_results source_id 0 calls,
     MessageGenerator.mk source_id
       (nth_group_id (List.length (List.concat calls)))) /\
  nth_group_id 0 = 0 /\ nth_group_id 1 = 1 /\
  (forall k : nat,
     nth_group_id (S k) =
     if nth_group_id k =? 99 then 1 else nth_group_id k + 1) /\
  (forall k : nat, (1 <= k)%nat -> 1 <= nth_group_id k <= 99) /\
  Forall (Forall (fun m => 1 <= IEC61162450Message.group_id m <= 99))
         (fst (generate_msg_calls
                 (MessageGenerator.init source_id) calls)).
Proof.
  assert (E : generate_msg_calls (MessageGenerator.init source_id) calls =
              (expected_results source_id 0 calls,
               MessageGenerator.mk source_id
                 (nth_group_id (List.length (List.concat calls))))).
  { change (MessageGenerator.init source_id)
      with (MessageGenerator.mk source_id (nth_group_id 0)).
    now rewrite generate_msgs_expected. }
  split; [exact E|]. split; [reflexivity|]. split; [reflexivity|].
  split; [intro k; apply nth_group_id_succ|].
  split.
  - intros k Hk. destruct (nth_group_id_range k) as [H0 H1].
    specialize (H1 Hk). lia.
  - rewrite E. cbn [fst]. apply expected_results_range.
Qed.

(** ** The sentence generator *)

Lemma asm_payload_bs_to_bbm_sentences_empty
    (sequential_id channel msg_id : Z) (talker_id : string) :
  asm_payload_bs_to_bbm_sentences [] sequential_id channel msg_id talker_id =
  Ok [].
Proof.
  rewrite (asm_payload_bs_to_bbm_sentences_spec [] _ _ _ _ EmptyString)
    by reflexivity.
  reflexivity.
Qed.

(** C10: an empty group in the input of [generate_msg] moves the group id
    once and adds no message; [generate_bbm] on an empty bit stream returns
    one empty group and leaves the sentence generator as it was, so wrapping
    its result uses up a group id and produces no message. *)
Theorem empty_group_consumes_group_id {A : Type} (self : MessageGenerator.t)
    (before after : list (list A)) :
  let r1 := MessageGenerator.generate_msg self before in
  let skipped :=
    MessageGenerator.set_group_id (snd r1)
      (advance (MessageGenerator.group_id (snd r1))) in
  let r2 := MessageGenerator.generate_msg skipped after in
  MessageGenerator.generate_msg self (before ++ [] :: after) =
    ((fst r1 ++ fst r2)%list, snd r2) /\
  MessageGenerator.group_id skipped <> MessageGenerator.group_id (snd r1) /\
  MessageGenerator.generate_msg self ([[]] : list (list A)) =
    ([], MessageGenerator.set_group_id self
           (advance (MessageGenerator.group_id self))) /\
  forall (sg : SentenceGenerator.t) (channel msg_id : Z),
    SentenceGenerator.generate_bbm sg [] channel msg_id = Ok ([[]], sg) /\
    MessageGenerator.generate_msg self ([[]] : list (list BBMSentence.t)) =
      ([], MessageGenerator.set_group_id self
             (advance (MessageGenerator.group_id self))).
Proof.
  intros r1 skipped r2.
  split; [|split; [|split]].
  - rewrite generate_msg_app. cbv zeta. fold r1.
    rewrite generate_msg_cons. cbv zeta. fold skipped. fold r2.
    reflexivity.
  - apply advance_changes.
  - rewrite generate_msg_cons. reflexivity.
  - intros sg channel msg_id. split; [|rewrite generate_msg_cons; reflexivity].
    unfold SentenceGenerator.generate_bbm.
    rewrite asm_payload_bs_to_bbm_sentences_empty. reflexivity.
Qed.

(** C1: [generate_bbm] returns one group whose sentences all carry the
    sequential id the generator had before the call; afterwards the
    generator's id is [(old + 1) mod 10] when the group has more than one
    sentence and is unchanged when it has exactly one. *)
Theorem generate_bbm_sequential_id (self : SentenceGenerator.t)
    (asm_payload_bs : BitStream) (channel msg_id : Z) :
  exists (group : list BBMSentence.t) (self' : SentenceGenerator.t),
    SentenceGenerator.generate_bbm self asm_payload_bs channel msg_id =
      Ok ([group], self') /\
    Forall (fun s => BBMSentence.sequential_id s =
                     SentenceGenerator.bbm_sequential_id self) group /\
    ((1 < List.length group)%nat ->
       SentenceGenerator.bbm_sequential_id self' =
       (SentenceGenerator.bbm_sequential_id self + 1) mod 10) /\
    (List.length group = 1%nat ->
       SentenceGenerator.bbm_sequential_id self' =
       SentenceGenerator.bbm_sequential_id self) /\
    SentenceGenerator.vdm_sequential_id self' =
      SentenceGenerator.vdm_sequential_id self /\
    SentenceGenerator.talker_id self' = SentenceGenerator.talker_id self.
Proof.
  destruct (armoured_payload_defined asm_payload_bs) as [armored Ha].
  unfold SentenceGenerator.generate_bbm.
  rewrite (asm_payload_bs_to_bbm_sentences_spec _ _ _ _ _ _ Ha). cbn [bind].
  set (group := map _ _).
  eexists group, _. split; [reflexivity|]. split; [|split; [|split; [|split]]].
  - apply Forall_map, Forall_forall. intros; reflexivity.
  - intro H. destruct (Z.gtb_spec (Z.of_nat (List.length group)) 1); [reflexivity | lia].
  - intro H. destruct (Z.gtb_spec (Z.of_nat (List.length group)) 1); [lia | reflexivity].
  - destruct (Z.of_nat (List.length group) >? 1); reflexivity.
  - destruct (Z.of_nat (List.length group) >? 1); reflexivity.
Qed.

(** ** The self-test sample *)

(** The sample has fifteen times fifteen hexadecimal digits. *)
Lemma sample_encoding_unique (n_bits armored_len : Z) (fragment_lens : list Z) :
  sample_encoding n_bits armored_len fragment_lens ->
  n_bits = 900 /\ armored_len = 150 /\ fragment_lens = [57; 57; 36].
Proof.
  intros (bs & armored & bbm & Hs & Hn & _ & Ha & Hl & Hb & Hf).
  vm_compute in Hs. injection Hs as <-.
  vm_compute in Hn. vm_compute in Ha. injection Ha as <-.
  vm_compute in Hl. vm_compute in Hb. injection Hb as <-.
  vm_compute in Hf. subst. repeat split.
Qed.

(** C7, as amended: the sample is 225 hexadecimal digits, that is 900 bits;
    armouring it takes no fill bit and yields 150 characters, which make
    three BBM fragments of 57, 57 and 36 characters. *)
Theorem sample_encoding_900_bits : sample_encoding 900 150 [57; 57; 36].
Proof.
  unfold sample_encoding.
  eexists. eexists. eexists.
  split; [vm_compute; reflexivity|].
  split; [vm_compute; reflexivity|].
  split; [vm_compute; reflexivity|].
  split; [vm_compute; reflexivity|].
  split; [vm_compute; reflexivity|].
  split; [vm_compute; reflexivity|].
  vm_compute; reflexivity.
Qed.

(** C7, as stated, fails: the sample is not 960 bits, its armoured string
    does not have 160 characters, and the last fragment does not have 46. *)
Lemma sample_encoding_not_960_bits :
  ~ sample_encoding 960 160 [57; 57; 46] /\
  (forall n_bits lens, ~ sample_encoding n_bits 160 lens) /\
  (forall n_bits armored_len, ~ sample_encoding n_bits armored_len [57; 57; 46]).
Proof.
  split; [|split].
  - intro H. apply sample_encoding_unique in H. destruct H as (H & _). discriminate.
  - intros n_bits lens H. apply sample_encoding_unique in H.
    destruct H as (_ & H & _). discriminate.
  - intros n_bits armored_len H. apply sample_encoding_unique in H.
    destruct H as (_ & _ & H). discriminate.
Qed.

(** ** The self-test runs of the two modules *)

Example BBMSentence_string_selftest :
  BBMSentence.string (BBMSentence.mk 1 1 0 1 8 "Beam me up - Scotty" 5 "AI") =
  Ok ("!AIBBM,1,1,0,1,8,Beam me up - Scotty,5*48" ++ CRLF)%string.
Proof. reflexivity. Qed.

Example VDMSentence_string_selftest :
  VDMSentence.string (VDMSentence.mk 1 1 0 "A" "Beam me up - Scotty" 5 "AI") =
  Ok ("!AIVDM,1,1,0,A,Beam me up - Scotty,5*3E" ++ CRLF)%string.
Proof. reflexivity. Qed.

(** Three fragments from a generator whose counter is 9: the sentences
    carry 9 and the counter wraps to 0. *)
Example generate_bbm_wraps_9_to_0 :
  (bs <- sample_asm_payload_bs ;;
   r <- SentenceGenerator.generate_bbm (SentenceGenerator.mk "AI" 0 9) bs 1 8 ;;
   Ok (map (map BBMSentence.sequential_id) (fst r),
       SentenceGenerator.bbm_sequential_id (snd r))) =
  Ok ([[9; 9; 9]], 0).
Proof. vm_compute. reflexivity. Qed.

(** A single-fragment payload (8 bits, 4 fill bits) leaves the counter
    alone. *)
Example generate_bbm_single_fragment :
  (r <- SentenceGenerator.generate_bbm (SentenceGenerator.mk "AI" 0 9)
          [true; false; true; false; true; false; true; true] 1 8 ;;
   Ok (map (map (fun s => (BBMSentence.sequential_id s,
                           BBMSentence.payload s,
                           BBMSentence.n_fill_bits s))) (fst r),
       SentenceGenerator.bbm_sequential_id (snd r))) =
  Ok ([[(9, "bh"%string, 4)]], 9).
Proof. vm_compute. reflexivity. Qed.

(** The group id goes from 99 to 1, and an empty group uses an id. *)
Example generate_msg_wraps_99_to_1 :
  MessageGenerator.generate_msg (MessageGenerator.mk "GR0001" 98)
    [[10; 11]; []; [12]] =
  ([IEC61162450Message.mk 1 2 99 "GR0001" 10;
    IEC61162450Message.mk 2 2 99 "GR0001" 11;
    IEC61162450Message.mk 1 1 2 "GR0001" 12],
   MessageGenerator.mk "GR0001" 2).
Proof. reflexivity. Qed.

(** The message string of the first sentence of the self-test. *)
Example IEC61162450Message_string_selftest :
  IEC61162450Message.string
    (IEC61162450Message.mk 1 1 1 "GR0001"
       (BBMSentence.mk 1 1 0 1 8 "Beam me up - Scotty" 5 "AI")) =
  Ok (BACKSLASH ++ "g:1-1-1,s:GR0001*1D" ++ BACKSLASH
      ++ "!AIBBM,1,1,0,1,8,Beam me up - Scotty,5*48" ++ CRLF)%string.
Proof. reflexivity. Qed.

(** ** Further properties: sentence and message strings *)

Lemma BBMSentence_string_ok (b : BBMSentence.t) :
  BBMSentence.string b = Ok (bbm_grammar b).
Proof.
  unfold BBMSentence.string.
  set (s := ("!" ++ _)%string).
  assert (E : s = String "!" (bbm_body b)).
  { subst s. unfold bbm_body, bbm_fields. cbn [String.concat].
    now rewrite append_assoc. }
  rewrite E, iec_checksum_cons. cbn [bind is_sentinel].
  rewrite fmt_r02X_byte by apply xor_codes_range.
  reflexivity.
Qed.

Lemma VDMSentence_string_ok (v : VDMSentence.t) :
  VDMSentence.string v = Ok (vdm_grammar v).
Proof.
  unfold VDMSentence.string.
  set (s := ("!" ++ _)%string).
  assert (E : s = String "!" (vdm_body v)).
  { subst s. unfold vdm_body, vdm_fields. cbn [String.concat].
    now rewrite append_assoc. }
  rewrite E, iec_checksum_cons. cbn [bind is_sentinel].
  rewrite fmt_r02X_byte by apply xor_codes_range.
  reflexivity.
Qed.


(** The TAG block begins with [g], so its checksum is never refused and
    covers all of it. *)
Lemma iec_checksum_message_tag {A : Type} (m : IEC61162450Message.t A) :
  iec_checksum (message_tag m) = Ok (xor_codes (message_tag m)).
Proof.
  unfold message_tag.
  set (rest := (fmt_d _ ++ _)%string).
  change ("g:" ++ rest)%string with (String "g" (String ":" rest)).
  now rewrite iec_checksum_cons.
Qed.

(** The message string in terms of the string of the embedded sentence. *)
Lemma IEC61162450Message_string_bind {A : Type} `{Sentence A}
    (m : IEC61162450Message.t A) :
  IEC61162450Message.string m =
  (sentence_str <- sentence_string (IEC61162450Message.sentence m) ;;
   Ok (message_grammar m sentence_str)).
Proof.
  unfold IEC61162450Message.string. fold (message_tag m).
  rewrite iec_checksum_message_tag. cbn [bind].
  destruct (sentence_string (IEC61162450Message.sentence m)) as [str|e];
    cbn [bind]; [|reflexivity].
  rewrite fmt_r02X_byte by apply xor_codes_range. reflexivity.
Qed.


(** ** Further properties: armouring *)

Lemma groups_of_firstn (w k : nat) (bits : list bool) :
  groups_of w k (firstn (w * k) bits) = groups_of w k bits.
Proof.
  revert bits; induction k as [|k IH]; intro bits; [reflexivity|].
  cbn [groups_of]. f_equal.
  - rewrite firstn_firstn. f_equal. lia.
  - rewrite <- (IH (skipn w bits)). f_equal.
    rewrite firstn_skipn_comm. f_equal. f_equal. lia.
Qed.

Lemma n_char_bound (bs : BitStream) :
  (6 * Z.to_nat (bs_len bs / 6) <= List.length bs)%nat.
Proof.
  unfold bs_len.
  pose proof (Z.div_mod (Z.of_nat (List.length bs)) 6 ltac:(lia)).
  pose proof (Z.mod_pos_bound (Z.of_nat (List.length bs)) 6 ltac:(lia)).
  lia.
Qed.

(** The string [iec_ascii_6b_to_8b] returns, for any bit stream. *)
Lemma iec_ascii_6b_to_8b_any (bs : BitStream) :
  iec_ascii_6b_to_8b bs =
  Ok (string_of_list_ascii
        (map (fun g => chr (armour_code (uint g)))
             (groups_of 6 (Z.to_nat (bs_len bs / 6)) bs))).
Proof.
  unfold iec_ascii_6b_to_8b.
  rewrite readlist_uint_groups by (pose proof (n_char_bound bs); simpl; lia).
  cbn [bind skipn]. unfold join_chr. rewrite !map_map. reflexivity.
Qed.

Lemma iec_ascii_6b_to_8b_len (bs : BitStream) (s : string) :
  iec_ascii_6b_to_8b bs = Ok s -> len s = bs_len bs / 6.
Proof.
  rewrite iec_ascii_6b_to_8b_any. intro E.
  pose proof (f_equal (fun r => match r with
                                | Ok x => len x
                                | Raise _ => 0
                                end) E) as L.
  cbv beta iota in L. rewrite <- L.
  unfold len. rewrite length_string_of_list_ascii, length_map, length_groups_of.
  rewrite Z2Nat.id; [reflexivity|]. apply Z.div_pos; unfold bs_len; lia.
Qed.

(** X5: [iec_ascii_6b_to_8b] never raises, whatever the length of the bit
    stream: it returns [len(bs) // 6] characters and ignores the bits left
    over after the last whole group of 6. *)
Theorem iec_ascii_6b_to_8b_total (bs : BitStream) :
  exists s : string,
    iec_ascii_6b_to_8b bs = Ok s /\
    len s = bs_len bs / 6 /\
    iec_ascii_6b_to_8b (firstn (6 * Z.to_nat (bs_len bs / 6)) bs) = Ok s.
Proof.
  eexists. split; [apply iec_ascii_6b_to_8b_any|]. split.
  - unfold len. rewrite length_string_of_list_ascii, length_map, length_groups_of.
    rewrite Z2Nat.id; [reflexivity|]. apply Z.div_pos; unfold bs_len; lia.
  - rewrite iec_ascii_6b_to_8b_any.
    pose proof (n_char_bound bs) as Hb.
    assert (E : bs_len (firstn (6 * Z.to_nat (bs_len bs / 6)) bs) / 6 = bs_len bs / 6).
    { unfold bs_len at 1. rewrite length_firstn, Nat.min_l by exact Hb.
      rewrite Nat2Z.inj_mul, Z2Nat.id by (apply Z.div_pos; unfold bs_len; lia).
      change (Z.of_nat 6) with 6. rewrite Z.mul_comm. apply Z.div_mul. lia. }
    rewrite E, groups_of_firstn. reflexivity.
Qed.

Lemma In_substring (c : ascii) (n m : nat) (s : string) :
  In c (list_ascii_of_string (substring n m s)) ->
  In c (list_ascii_of_string s).
Proof.
  revert n m; induction s as [|d s IH]; intros n m H.
  - destruct n, m; exact H.
  - destruct n as [|n]; cbn [substring] in H.
    + destruct m as [|m]; cbn [list_ascii_of_string] in *; [contradiction|].
      destruct H as [H|H]; [now left | right; eapply IH; exact H].
    + right. eapply IH. exact H.
Qed.

Lemma armour_char_code (v : Z) :
  0 <= v <= 63 -> armour_char (chr (armour_code v)).
Proof.
  intro H. unfold armour_char.
  rewrite (proj2 (armour_code_range v H)). unfold armour_code.
  destruct (Z.ltb_spec v 40); lia.
Qed.

(** The characters of an armoured string are in the armouring alphabet. *)
Lemma armoured_alphabet (bs : BitStream) (s : string) :
  iec_ascii_6b_to_8b bs = Ok s ->
  Forall armour_char (list_ascii_of_string s).
Proof.
  rewrite iec_ascii_6b_to_8b_any. intros [= <-].
  rewrite list_ascii_of_string_of_list_ascii.
  apply Forall_map.
  assert (G : forall k bits,
             Forall (fun g => armour_char (chr (armour_code (uint g))))
                    (groups_of 6 k bits)).
  { induction k as [|k IH]; intro bits; cbn [groups_of]; constructor; [|apply IH].
    apply armour_char_code.
    pose proof (uint_range (firstn 6 bits)) as Hr.
    assert (Z.of_nat (List.length (firstn 6 bits)) <= 6)
      by (rewrite length_firstn; lia).
    assert (2 ^ Z.of_nat (List.length (firstn 6 bits)) <= 2 ^ 6)
      by (apply Z.pow_le_mono_r; lia).
    change (2 ^ 6) with 64 in *. lia. }
  apply G.
Qed.

(** X6: the payload of every sentence built from a bit stream consists of
    characters with codes in 48..87 or 96..119 only, so it holds none of
    the characters that delimit a sentence ([,], [*], [!], [$], backslash,
    CR, LF). *)
Theorem sentence_payload_alphabet (bs : BitStream)
    (sequential_id channel msg_id : Z) (vdm_channel talker_id : string) :
  exists (bbm : list BBMSentence.t) (vdm : list VDMSentence.t),
    asm_payload_bs_to_bbm_sentences bs sequential_id channel msg_id talker_id =
      Ok bbm /\
    ais_msg_bs_to_vdm_sentences bs sequential_id vdm_channel talker_id = Ok vdm /\
    Forall (fun s => Forall armour_char
                       (list_ascii_of_string (BBMSentence.payload s))) bbm /\
    Forall (fun s => Forall armour_char
                       (list_ascii_of_string (VDMSentence.payload s))) vdm /\
    forall c : ascii,
      armour_char c ->
      ~ In c [","; "*"; "!"; "$"; ascii_of_nat 92; ascii_of_nat 13;
              ascii_of_nat 10]%char.
Proof.
  destruct (armoured_payload_defined bs) as [armored Ha].
  pose proof (armoured_alphabet _ _ Ha) as Hal. rewrite Forall_forall in Hal.
  eexists. eexists.
  split; [apply (asm_payload_bs_to_bbm_sentences_spec _ _ _ _ _ _ Ha)|].
  split; [apply (ais_msg_bs_to_vdm_sentences_spec _ _ _ _ _ Ha)|].
  split; [|split].
  - apply Forall_map, Forall_forall. intros i _.
    cbn [BBMSentence.payload]. apply Forall_forall. intros c Hc.
    apply Hal. unfold fragment, str_slice in Hc. eapply In_substring, Hc.
  - apply Forall_map, Forall_forall. intros i _.
    cbn [VDMSentence.payload]. apply Forall_forall. intros c Hc.
    apply Hal. unfold fragment, str_slice in Hc. eapply In_substring, Hc.
  - intros c Hc Hin. unfold armour_char in Hc.
    cbn [In] in Hin.
    repeat (destruct Hin as [<-|Hin];
            [match type of Hc with
             | context [ord ?x] =>
                 let v := eval vm_compute in (ord x) in
                 change (ord x) with v in Hc
             end; lia|]).
    exact Hin.
Qed.

Lemma dearmour_armour_code (v : Z) :
  0 <= v <= 63 -> dearmour_code (armour_code v) = v.
Proof.
  intro H. unfold dearmour_code, armour_code.
  destruct (Z.ltb_spec v 40).
  - destruct (Z.ltb_spec (v + 48) 88); lia.
  - destruct (Z.ltb_spec (v + 56) 88); lia.
Qed.

Lemma bits6_uint (g : list bool) : List.length g = 6%nat -> bits6 (uint g) = g.
Proof.
  intro H.
  destruct g as [|b5 [|b4 [|b3 [|b2 [|b1 [|b0 [|x g]]]]]]]; try discriminate H.
  destruct b5, b4, b3, b2, b1, b0; reflexivity.
Qed.

Lemma dearmour_groups (groups : list (list bool)) :
  Forall (fun g => List.length g = 6%nat) groups ->
  dearmour (string_of_list_ascii
              (map (fun g => chr (armour_code (uint g))) groups)) =
  List.concat groups.
Proof.
  intro H. unfold dearmour. rewrite list_ascii_of_string_of_list_ascii.
  induction H as [|g groups Hg _ IH]; [reflexivity|].
  cbn [map flat_map List.concat]. rewrite IH. f_equal.
  pose proof (uint_range g) as Hr. rewrite Hg in Hr.
  change (2 ^ Z.of_nat 6) with 64 in Hr.
  rewrite (proj2 (armour_code_range (uint g) ltac:(lia))).
  rewrite dearmour_armour_code by lia. now apply bits6_uint.
Qed.

(** De-armouring what [iec_ascii_6b_to_8b] made of a whole number of
    6-bit groups gives the bits back. *)
Lemma dearmour_iec_ascii_6b_to_8b (bs : BitStream) (s : string) :
  bs_len bs mod 6 = 0 -> iec_ascii_6b_to_8b bs = Ok s -> dearmour s = bs.
Proof.
  intros Hm Hs.
  destruct (iec_ascii_6b_to_8b_groups bs Hm) as (Hc & Hg & Ha).
  rewrite Ha in Hs. injection Hs as <-.
  rewrite dearmour_groups by exact Hg. exact Hc.
Qed.

(** X7: armouring loses nothing: mapping every character of the armoured
    string back to its 6-bit value (code - 48 below 88, code - 56 from 96)
    gives the padded bit stream, and dropping the fill bits gives the
    original bits. *)
Theorem armour_round_trip (bs : BitStream) :
  exists armored : string,
    iec_ascii_6b_to_8b (bs ++ BitStream_zeros ((6 - bs_len bs mod 6) mod 6)) =
      Ok armored /\
    dearmour armored = (bs ++ BitStream_zeros ((6 - bs_len bs mod 6) mod 6))%list /\
    firstn (List.length bs) (dearmour armored) = bs.
Proof.
  destruct (armoured_payload_defined bs) as [armored Ha].
  destruct (fill_bits_range (bs_len bs)) as [Hf Hm].
  assert (D : dearmour armored =
              (bs ++ BitStream_zeros ((6 - bs_len bs mod 6) mod 6))%list).
  { apply dearmour_iec_ascii_6b_to_8b; [|exact Ha].
    rewrite bs_len_padded by lia. exact Hm. }
  exists armored. split; [exact Ha|]. split; [exact D|].
  rewrite D, firstn_app, Nat.sub_diag, firstn_all. cbn [firstn].
  apply app_nil_r.
Qed.

Lemma join_fragments_all (armored : string) (max_chars : Z) :
  0 < max_chars ->
  join (map (fragment armored max_chars)
            (zrange 1 (ceil (true_div (len armored) max_chars)))) = armored.
Proof.
  intro Hm. destruct (fragmentation_zrange armored max_chars Hm) as (_ & _ & _ & J).
  exact J.
Qed.

Lemma len_zero_empty (s : string) : len s <= 0 -> s = EmptyString.
Proof. destruct s; [reflexivity|]. unfold len; simpl String.length; lia. Qed.

(** X8: the BBM sentences determine the payload: two bit streams that give
    the same sentences (for the same sequential id, channel, message id and
    talker id) are the same bit stream. *)
Theorem asm_payload_bs_to_bbm_sentences_injective (bs1 bs2 : BitStream)
    (sequential_id channel msg_id : Z) (talker_id : string) :
  asm_payload_bs_to_bbm_sentences bs1 sequential_id channel msg_id talker_id =
  asm_payload_bs_to_bbm_sentences bs2 sequential_id channel msg_id talker_id ->
  bs1 = bs2.
Proof.
  destruct (armoured_payload_defined bs1) as [a1 Ha1].
  destruct (armoured_payload_defined bs2) as [a2 Ha2].
  rewrite (asm_payload_bs_to_bbm_sentences_spec _ _ _ _ _ _ Ha1).
  rewrite (asm_payload_bs_to_bbm_sentences_spec _ _ _ _ _ _ Ha2).
  intro E0.
  pose proof (f_equal (fun r => match r with Ok l => l | Raise _ => [] end) E0)
    as E.
  cbv beta iota in E. clear E0.
  assert (Ea : a1 = a2).
  { pose proof (f_equal (fun l => join (map BBMSentence.payload l)) E) as J.
    cbv beta in J. rewrite !map_map in J. cbn [BBMSentence.payload] in J.
    rewrite !join_fragments_all in J by lia. exact J. }
  subst a2.
  destruct (fill_bits_range (bs_len bs1)) as [Hf1 Hm1].
  destruct (fill_bits_range (bs_len bs2)) as [Hf2 Hm2].
  assert (P1 : dearmour a1 =
               (bs1 ++ BitStream_zeros ((6 - bs_len bs1 mod 6) mod 6))%list).
  { apply dearmour_iec_ascii_6b_to_8b; [|exact Ha1].
    rewrite bs_len_padded by lia. exact Hm1. }
  assert (P2 : dearmour a1 =
               (bs2 ++ BitStream_zeros ((6 - bs_len bs2 mod 6) mod 6))%list).
  { apply dearmour_iec_ascii_6b_to_8b; [|exact Ha2].
    rewrite bs_len_padded by lia. exact Hm2. }
  destruct (Z_le_gt_dec 1 (ceil (true_div (len a1) 57))) as [Hn|Hn].
  - rewrite (zrange_cons 1), !map_cons in E by exact Hn.
    pose proof (f_equal (fun l => match l with
                                  | s :: _ => BBMSentence.n_fill_bits s
                                  | [] => 0
                                  end) E) as Eh.
    unfold BBMSentence.n_fill_bits in Eh. cbv beta iota in Eh.
    assert (L : bs_len bs1 = bs_len bs2).
    { pose proof (f_equal bs_len P1) as L1. pose proof (f_equal bs_len P2) as L2.
      rewrite bs_len_padded in L1, L2 by lia. lia. }
    assert (F1 : firstn (List.length bs1) (dearmour a1) = bs1).
    { rewrite P1, firstn_app, Nat.sub_diag, firstn_all. cbn [firstn].
      apply app_nil_r. }
    assert (F2 : firstn (List.length bs2) (dearmour a1) = bs2).
    { rewrite P2, firstn_app, Nat.sub_diag, firstn_all. cbn [firstn].
      apply app_nil_r. }
    unfold bs_len in L. apply Nat2Z.inj in L. rewrite L in F1. congruence.
  - pose proof (ceil_true_div_spec (len a1) 57 ltac:(lia)) as Hc.
    assert (a1 = EmptyString) by (apply len_zero_empty; lia). subst a1.
    cbn in P1, P2. symmetry in P1, P2.
    apply app_eq_nil in P1, P2. destruct P1 as [-> _], P2 as [-> _]. reflexivity.
Qed.

Lemma asm_payload_bs_to_bbm_sentences_injective_witness :
  [true; false; true] = [true; false; true].
Proof.
  apply (asm_payload_bs_to_bbm_sentences_injective
           [true; false; true] [true; false; true] 0 1 8 "AI").
  reflexivity.
Defined.

(** ** Further properties: sentence counts and lengths *)

(** The armoured string has one character per 6 padded bits. *)
Lemma armoured_len (bs : BitStream) (armored : string) :
  iec_ascii_6b_to_8b (bs ++ BitStream_zeros ((6 - bs_len bs mod 6) mod 6)) =
    Ok armored ->
  6 * len armored = bs_len bs + (6 - bs_len bs mod 6) mod 6.
Proof.
  intro Ha. destruct (fill_bits_range (bs_len bs)) as [Hf Hm].
  pose proof (iec_ascii_6b_to_8b_len _ _ Ha) as Hl.
  rewrite bs_len_padded in Hl by lia. rewrite Hl.
  pose proof (Z.div_mod (bs_len bs + (6 - bs_len bs mod 6) mod 6) 6 ltac:(lia)).
  lia.
Qed.

(** The number of fragments in terms of the number of bits. *)
Lemma fragment_count_bits (bs : BitStream) (armored : string) (max_chars : Z) :
  0 < max_chars ->
  iec_ascii_6b_to_8b (bs ++ BitStream_zeros ((6 - bs_len bs mod 6) mod 6)) =
    Ok armored ->
  ceil (true_div (len armored) max_chars) =
  (bs_len bs + (6 * max_chars - 1)) / (6 * max_chars).
Proof.
  intros Hm Ha. pose proof (armoured_len bs armored Ha) as Hl.
  destruct (fill_bits_range (bs_len bs)) as [Hf _].
  pose proof (ceil_true_div_spec (len armored) max_chars Hm) as Hc.
  set (c := ceil (true_div (len armored) max_chars)) in *.
  apply Z.div_unique with (r := bs_len bs + (6 * max_chars - 1) - 6 * max_chars * c);
    [left|]; nia.
Qed.

(** X9: the number of sentences depends on the number of bits [n] only:
    [ceil(n / 342)] BBM sentences and [ceil(n / 360)] VDM sentences; an
    empty payload gives none, and there is no upper limit. *)
Theorem sentence_count (bs : BitStream)
    (sequential_id channel msg_id : Z) (vdm_channel talker_id : string) :
  exists (bbm : list BBMSentence.t) (vdm : list VDMSentence.t),
    asm_payload_bs_to_bbm_sentences bs sequential_id channel msg_id talker_id =
      Ok bbm /\
    ais_msg_bs_to_vdm_sentences bs sequential_id vdm_channel talker_id = Ok vdm /\
    Z.of_nat (List.length bbm) = (bs_len bs + 341) / 342 /\
    Z.of_nat (List.length vdm) = (bs_len bs + 359) / 360 /\
    Forall (fun s => BBMSentence.n_sentences s = (bs_len bs + 341) / 342) bbm /\
    Forall (fun s => VDMSentence.n_sentences s = (bs_len bs + 359) / 360) vdm.
Proof.
  destruct (armoured_payload_defined bs) as [armored Ha].
  pose proof (fragment_count_bits bs armored 57 ltac:(lia) Ha) as C57.
  pose proof (fragment_count_bits bs armored 60 ltac:(lia) Ha) as C60.
  change (6 * 57 - 1) with 341 in C57. change (6 * 57) with 342 in C57.
  change (6 * 60 - 1) with 359 in C60. change (6 * 60) with 360 in C60.
  assert (0 <= bs_len bs) by (unfold bs_len; lia).
  assert (0 <= (bs_len bs + 341) / 342) by (apply Z.div_pos; lia).
  assert (0 <= (bs_len bs + 359) / 360) by (apply Z.div_pos; lia).
  eexists. eexists.
  split; [apply (asm_payload_bs_to_bbm_sentences_spec _ _ _ _ _ _ Ha)|].
  split; [apply (ais_msg_bs_to_vdm_sentences_spec _ _ _ _ _ Ha)|].
  rewrite !length_map, !length_zrange, C57, C60.
  split; [lia|]. split; [lia|].
  split; apply Forall_map, Forall_forall; intros; reflexivity.
Qed.

Lemma len_app (a b : string) : len (a ++ b) = len a + len b.
Proof. unfold len. rewrite length_append. lia. Qed.

Lemma len_cons (c : ascii) (s : string) : len (String c s) = 1 + len s.
Proof. unfold len. simpl String.length. lia. Qed.

Lemma fmt_d_small (z : Z) :
  0 <= z <= 99 ->
  1 <= len (fmt_d z) <= 2 /\ (z <= 9 -> len (fmt_d z) = 1).
Proof.
  intro H.
  assert (F : forallb (fun k =>
                         let l := len (fmt_d (Z.of_nat k)) in
                         (1 <=? l) && (l <=? 2)
                         && ((9 <? Z.of_nat k) || (l =? 1)))
                      (seq 0 100) = true) by (vm_compute; reflexivity).
  rewrite forallb_forall in F.
  specialize (F (Z.to_nat z) ltac:(apply in_seq; lia)).
  rewrite Z2Nat.id in F by lia. cbv zeta in F.
  apply andb_true_iff in F. destruct F as [F1 F2].
  apply andb_true_iff in F1. destruct F1 as [F0 F1].
  apply Z.leb_le in F0, F1. split; [lia|].
  intro Hz. apply orb_true_iff in F2. destruct F2 as [F2|F2].
  - apply Z.ltb_lt in F2. lia.
  - now apply Z.eqb_eq in F2.
Qed.

Lemma len_bbm_grammar (b : BBMSentence.t) :
  len (bbm_grammar b) =
  len (BBMSentence.talker_id b) + 16
  + len (fmt_d (BBMSentence.n_sentences b))
  + len (fmt_d (BBMSentence.i_sentence b))
  + len (fmt_d (BBMSentence.sequential_id b))
  + len (fmt_d (BBMSentence.channel b))
  + len (fmt_d (BBMSentence.msg_id b))
  + len (BBMSentence.payload b)
  + len (fmt_d (BBMSentence.n_fill_bits b)).
Proof.
  unfold bbm_grammar, bbm_body, bbm_fields, two_hex_digits, CRLF,
    BBMSentence.formatter_code.
  cbn [String.concat append].
  repeat (rewrite ?len_app, ?len_cons). unfold len at 1. simpl String.length.
  ring_simplify. unfold len. simpl String.length. lia.
Qed.

Lemma len_vdm_grammar (v : VDMSentence.t) :
  len (vdm_grammar v) =
  len (VDMSentence.talker_id v) + 15
  + len (fmt_d (VDMSentence.n_sentences v))
  + len (fmt_d (VDMSentence.i_sentence v))
  + len (fmt_d (VDMSentence.sequential_id v))
  + len (VDMSentence.channel v)
  + len (VDMSentence.payload v)
  + len (fmt_d (VDMSentence.n_fill_bits v)).
Proof.
  unfold vdm_grammar, vdm_body, vdm_fields, two_hex_digits, CRLF,
    VDMSentence.formatter_code.
  cbn [String.concat append].
  repeat (rewrite ?len_app, ?len_cons). unfold len at 1. simpl String.length.
  ring_simplify. unfold len. simpl String.length. lia.
Qed.

Lemma In_zrange (lo hi i : Z) : In i (zrange lo hi) -> lo <= i <= hi.
Proof.
  unfold zrange. intro H. apply in_map_iff in H.
  destruct H as (k & <- & Hk). apply in_seq in Hk. lia.
Qed.

Lemma len_fragment_le (armored : string) (max_chars i : Z) :
  0 < max_chars -> 1 <= i -> len (fragment armored max_chars i) <= max_chars.
Proof.
  intros Hm Hi. unfold fragment. rewrite len_str_slice by nia.
  pose proof (len_nonneg armored). lia.
Qed.

(** X10: a BBM sentence built from a payload of at most 3078 bits (nine
    fragments), with sequential id and channel of one digit, a message id
    of at most two digits and a talker id of two 8-bit characters, renders in at
    most 82 characters, CRLF included: the limit the fragment size 57 was
    chosen for. *)
Theorem bbm_sentences_fit_82 (bs : BitStream)
    (sequential_id channel msg_id : Z) (talker_id : string) :
  bs_len bs <= 3078 ->
  0 <= sequential_id <= 9 -> 0 <= channel <= 9 -> 0 <= msg_id <= 99 ->
  len talker_id = 2 ->
  exists bbm : list BBMSentence.t,
    asm_payload_bs_to_bbm_sentences bs sequential_id channel msg_id talker_id =
      Ok bbm /\
    Forall (fun s => exists str : string,
                       BBMSentence.string s = Ok str /\ len str <= 82) bbm.
Proof.
  intros Hb Hs Hc Hi Ht.
  destruct (armoured_payload_defined bs) as [armored Ha].
  pose proof (fragment_count_bits bs armored 57 ltac:(lia) Ha) as C.
  change (6 * 57 - 1) with 341 in C. change (6 * 57) with 342 in C.
  assert (0 <= bs_len bs) by (unfold bs_len; lia).
  assert (Hn : (bs_len bs + 341) / 342 <= 9).
  { assert ((bs_len bs + 341) / 342 < 10)
      by (apply Z.div_lt_upper_bound; lia). lia. }
  destruct (fill_bits_range (bs_len bs)) as [Hf _].
  eexists. split; [apply (asm_payload_bs_to_bbm_sentences_spec _ _ _ _ _ _ Ha)|].
  apply Forall_map, Forall_forall. intros i Hin. apply In_zrange in Hin.
  rewrite C in Hin |- *.
  eexists. split; [apply BBMSentence_string_ok|].
  rewrite len_bbm_grammar.
  cbn [BBMSentence.talker_id BBMSentence.n_sentences BBMSentence.i_sentence
       BBMSentence.sequential_id BBMSentence.channel BBMSentence.msg_id
       BBMSentence.payload BBMSentence.n_fill_bits].
  pose proof (proj2 (fmt_d_small ((bs_len bs + 341) / 342) ltac:(lia)) ltac:(lia)).
  pose proof (proj2 (fmt_d_small i ltac:(lia)) ltac:(lia)).
  pose proof (proj2 (fmt_d_small sequential_id ltac:(lia)) ltac:(lia)).
  pose proof (proj2 (fmt_d_small channel ltac:(lia)) ltac:(lia)).
  pose proof (proj1 (fmt_d_small msg_id ltac:(lia))).
  pose proof (proj2 (fmt_d_small ((6 - bs_len bs mod 6) mod 6) ltac:(lia)) ltac:(lia)).
  pose proof (len_fragment_le armored 57 i ltac:(lia) ltac:(lia)).
  lia.
Qed.

Lemma bbm_sentences_fit_82_witness :
  exists bbm : list BBMSentence.t,
    asm_payload_bs_to_bbm_sentences
      [true; false; true; false; true; false; true; true] 9 3 71 "AI" =
      Ok bbm /\
    Forall (fun s => exists str : string,
                       BBMSentence.string s = Ok str /\ len str <= 82) bbm.
Proof.
  apply (bbm_sentences_fit_82
           [true; false; true; false; true; false; true; true] 9 3 71 "AI");
    vm_compute; try split; congruence.
Defined.

(** X11: a VDM sentence built from a payload of at most 3240 bits (nine
    fragments), with a one-digit sequential id, a channel of one 8-bit
    character and a talker id of two 8-bit characters, renders in at most
    82 characters, CRLF included. *)
Theorem vdm_sentences_fit_82 (msg_bs : BitStream)
    (sequential_id : Z) (channel talker_id : string) :
  bs_len msg_bs <= 3240 ->
  0 <= sequential_id <= 9 -> len channel = 1 -> len talker_id = 2 ->
  exists vdm : list VDMSentence.t,
    ais_msg_bs_to_vdm_sentences msg_bs sequential_id channel talker_id = Ok vdm /\
    Forall (fun s => exists str : string,
                       VDMSentence.string s = Ok str /\ len str <= 82) vdm.
Proof.
  intros Hb Hs Hc Ht.
  destruct (armoured_payload_defined msg_bs) as [armored Ha].
  pose proof (fragment_count_bits msg_bs armored 60 ltac:(lia) Ha) as C.
  change (6 * 60 - 1) with 359 in C. change (6 * 60) with 360 in C.
  assert (0 <= bs_len msg_bs) by (unfold bs_len; lia).
  assert (Hn : (bs_len msg_bs + 359) / 360 <= 9).
  { assert ((bs_len msg_bs + 359) / 360 < 10)
      by (apply Z.div_lt_upper_bound; lia). lia. }
  destruct (fill_bits_range (bs_len msg_bs)) as [Hf _].
  eexists. split; [apply (ais_msg_bs_to_vdm_sentences_spec _ _ _ _ _ Ha)|].
  apply Forall_map, Forall_forall. intros i Hin. apply In_zrange in Hin.
  rewrite C in Hin |- *.
  eexists. split; [apply VDMSentence_string_ok|].
  rewrite len_vdm_grammar.
  cbn [VDMSentence.talker_id VDMSentence.n_sentences VDMSentence.i_sentence
       VDMSentence.sequential_id VDMSentence.channel
       VDMSentence.payload VDMSentence.n_fill_bits].
  pose proof (proj2 (fmt_d_small ((bs_len msg_bs + 359) / 360) ltac:(lia)) ltac:(lia)).
  pose proof (proj2 (fmt_d_small i ltac:(lia)) ltac:(lia)).
  pose proof (proj2 (fmt_d_small sequential_id ltac:(lia)) ltac:(lia)).
  pose proof (proj2 (fmt_d_small ((6 - bs_len msg_bs mod 6) mod 6) ltac:(lia))
                ltac:(lia)).
  pose proof (len_fragment_le armored 60 i ltac:(lia) ltac:(lia)).
  lia.
Qed.

Lemma vdm_sentences_fit_82_witness :
  exists vdm : list VDMSentence.t,
    ais_msg_bs_to_vdm_sentences
      [true; false; true; false; true; false; true; true] 9 "B" "AI" = Ok vdm /\
    Forall (fun s => exists str : string,
                       VDMSentence.string s = Ok str /\ len str <= 82) vdm.
Proof.
  apply (vdm_sentences_fit_82
           [true; false; true; false; true; false; true; true] 9 "B" "AI");
    vm_compute; try split; congruence.
Defined.

(** ** Further properties: the sentence generator over many calls *)

(** One call: the group is returned alone, and the counter moves exactly
    when the payload has more than 342 bits. *)
Lemma generate_bbm_step (self : SentenceGenerator.t) (bs : BitStream)
    (channel msg_id : Z) :
  exists group : list BBMSentence.t,
    SentenceGenerator.generate_bbm self bs channel msg_id =
    Ok ([group],
        if 342 <? bs_len bs
        then SentenceGenerator.set_bbm_sequential_id self
               ((SentenceGenerator.bbm_sequential_id self + 1) mod 10)
        else self).
Proof.
  destruct (armoured_payload_defined bs) as [armored Ha].
  pose proof (fragment_count_bits bs armored 57 ltac:(lia) Ha) as C.
  change (6 * 57 - 1) with 341 in C. change (6 * 57) with 342 in C.
  unfold SentenceGenerator.generate_bbm.
  rewrite (asm_payload_bs_to_bbm_sentences_spec _ _ _ _ _ _ Ha). cbn [bind].
  eexists. f_equal. f_equal.
  rewrite length_map, length_zrange, C.
  assert (0 <= bs_len bs) by (unfold bs_len; lia).
  assert (0 <= (bs_len bs + 341) / 342) by (apply Z.div_pos; lia).
  replace (Z.of_nat (Z.to_nat ((bs_len bs + 341) / 342 + 1 - 1)))
    with ((bs_len bs + 341) / 342) by lia.
  destruct (Z.ltb_spec 342 (bs_len bs)) as [L|L].
  - assert (2 <= (bs_len bs + 341) / 342)
      by (apply Z.div_le_lower_bound; lia).
    destruct (Z.gtb_spec ((bs_len bs + 341) / 342) 1); [reflexivity | lia].
  - assert ((bs_len bs + 341) / 342 < 2)
      by (apply Z.div_lt_upper_bound; lia).
    destruct (Z.gtb_spec ((bs_len bs + 341) / 342) 1); [lia | reflexivity].
Qed.

Lemma generate_bbm_calls_from (self : SentenceGenerator.t)
    (calls : list (BitStream * Z * Z)) :
  0 <= SentenceGenerator.bbm_sequential_id self <= 9 ->
  exists outs : list (list (list BBMSentence.t)),
    generate_bbm_calls self calls =
    Ok (outs,
        SentenceGenerator.mk (SentenceGenerator.talker_id self)
          (SentenceGenerator.vdm_sequential_id self)
          ((SentenceGenerator.bbm_sequential_id self
            + multi_sentence_calls calls) mod 10)) /\
    List.length outs = List.length calls /\
    Forall (fun groups => List.length groups = 1%nat) outs.
Proof.
  revert self; induction calls as [|[[bs channel] msg_id] calls IH]; intros self Hr.
  - exists []. cbn [generate_bbm_calls]. split; [|split; [reflexivity|constructor]].
    unfold multi_sentence_calls. cbn [filter List.length].
    rewrite Z.add_0_r, Z.mod_small by lia. destruct self; reflexivity.
  - cbn [generate_bbm_calls].
    destruct (generate_bbm_step self bs channel msg_id) as [group ->].
    cbn [bind snd fst].
    unfold multi_sentence_calls. cbn [filter fst].
    destruct (Z.ltb_spec 342 (bs_len bs)) as [L|L].
    + destruct (IH (SentenceGenerator.set_bbm_sequential_id self
                      ((SentenceGenerator.bbm_sequential_id self + 1) mod 10)))
        as (outs & -> & Hl & Hf).
      { cbn [SentenceGenerator.set_bbm_sequential_id
             SentenceGenerator.bbm_sequential_id].
        pose proof (Z.mod_pos_bound
                      (SentenceGenerator.bbm_sequential_id self + 1) 10 ltac:(lia)).
        lia. }
      cbn [bind fst snd]. eexists. split; [|split].
      * f_equal. f_equal.
        cbn [SentenceGenerator.set_bbm_sequential_id
             SentenceGenerator.talker_id SentenceGenerator.vdm_sequential_id
             SentenceGenerator.bbm_sequential_id].
        f_equal. unfold multi_sentence_calls. cbn [List.length].
        rewrite Zplus_mod_idemp_l. f_equal. lia.
      * cbn [List.length]. now rewrite Hl.
      * constructor; [reflexivity | exact Hf].
    + destruct (IH self Hr) as (outs & -> & Hl & Hf).
      cbn [bind fst snd]. eexists. split; [reflexivity|split].
      * cbn [List.length]. now rewrite Hl.
      * constructor; [reflexivity | exact Hf].
Qed.

(** X12: over any sequence of [generate_bbm] calls on a fresh generator no
    call raises, every call returns exactly one group, the BBM counter ends
    as the number of payloads of more than 342 bits modulo 10 (so it stays
    in 0..9), and the VDM counter and the talker id never change. *)
Theorem generate_bbm_calls_sequential_id (talker_id : string)
    (calls : list (BitStream * Z * Z)) :
  exists (outs : list (list (list BBMSentence.t))) (self' : SentenceGenerator.t),
    generate_bbm_calls (SentenceGenerator.init talker_id) calls =
      Ok (outs, self') /\
    List.length outs = List.length calls /\
    Forall (fun groups => List.length groups = 1%nat) outs /\
    SentenceGenerator.bbm_sequential_id self' = multi_sentence_calls calls mod 10 /\
    0 <= SentenceGenerator.bbm_sequential_id self' <= 9 /\
    SentenceGenerator.vdm_sequential_id self' = 0 /\
    SentenceGenerator.talker_id self' = talker_id.
Proof.
  destruct (generate_bbm_calls_from (SentenceGenerator.init talker_id) calls)
    as (outs & E & Hl & Hf).
  { cbn. lia. }
  eexists outs, _. split; [exact E|]. split; [exact Hl|]. split; [exact Hf|].
  cbn [SentenceGenerator.init SentenceGenerator.bbm_sequential_id
       SentenceGenerator.vdm_sequential_id SentenceGenerator.talker_id].
  rewrite Z.add_0_l.
  pose proof (Z.mod_pos_bound (multi_sentence_calls calls) 10 ltac:(lia)).
  repeat split; lia.
Qed.

(** ** Further properties: messages and the whole pipeline *)

Lemma combine_map_self {B C : Type} (f : B -> C) (l : list B) :
  combine l (map f l) = map (fun x => (x, f x)) l.
Proof. induction l as [|x l IH]; cbn [map combine]; [reflexivity | now rewrite IH]. Qed.

(** The messages of a group, read field by field. *)
Lemma group_messages_fields {A : Type} (gid : Z) (source_id : string)
    (group : list A) :
  map IEC61162450Message.sentence (group_messages gid source_id group) = group /\
  map IEC61162450Message.i_sentence (group_messages gid source_id group) =
    zrange 1 (Z.of_nat (List.length group)) /\
  Forall (fun m =>
            IEC61162450Message.n_sentences m = Z.of_nat (List.length group) /\
            IEC61162450Message.group_id m = gid /\
            IEC61162450Message.source_id m = source_id)
         (group_messages gid source_id group).
Proof.
  unfold group_messages.
  set (n := Z.of_nat (List.length group)).
  assert (G : forall (l : list A) (lo : Z),
             map IEC61162450Message.sentence
               (map (fun '(i, sentence) =>
                       IEC61162450Message.mk i n gid source_id sentence)
                    (combine (zrange lo (lo + Z.of_nat (List.length l) - 1)) l)) = l /\
             map IEC61162450Message.i_sentence
               (map (fun '(i, sentence) =>
                       IEC61162450Message.mk i n gid source_id sentence)
                    (combine (zrange lo (lo + Z.of_nat (List.length l) - 1)) l)) =
             zrange lo (lo + Z.of_nat (List.length l) - 1)).
  { induction l as [|x l IH]; intro lo.
    - rewrite combine_nil. cbn [map List.length].
      rewrite zrange_nil by lia. split; reflexivity.
    - cbn [List.length]. rewrite (zrange_cons lo) by lia.
      cbn [combine map IEC61162450Message.sentence IEC61162450Message.i_sentence].
      replace (lo + Z.of_nat (S (List.length l)) - 1)
        with (lo + 1 + Z.of_nat (List.length l) - 1) by lia.
      destruct (IH (lo + 1)) as [I1 I2]. rewrite I1, I2. split; reflexivity. }
  destruct (G group 1) as [G1 G2].
  replace (1 + Z.of_nat (List.length group) - 1) with n in G1, G2 by (unfold n; lia).
  split; [exact G1|]. split; [exact G2|].
  apply Forall_map, Forall_forall. intros [i x] _. repeat split.
Qed.

(** X13: [generate_msg] wraps every sentence of every group exactly once
    and in order, whatever the state of the generator: the embedded
    sentences are the concatenation of the groups; every message carries
    the generator's source id and an order between 1 and its group size;
    the source id of the generator is not changed. *)
Theorem generate_msg_keeps_sentences {A : Type} (self : MessageGenerator.t)
    (sentences : list (list A)) :
  map IEC61162450Message.sentence
      (fst (MessageGenerator.generate_msg self sentences)) =
    List.concat sentences /\
  Forall (fun m =>
            IEC61162450Message.source_id m = MessageGenerator.source_id self /\
            1 <= IEC61162450Message.i_sentence m
              <= IEC61162450Message.n_sentences m)
         (fst (MessageGenerator.generate_msg self sentences)) /\
  MessageGenerator.source_id (snd (MessageGenerator.generate_msg self sentences)) =
    MessageGenerator.source_id self.
Proof.
  revert self; induction sentences as [|group sentences IH]; intro self.
  - cbn. repeat split. constructor.
  - rewrite generate_msg_cons. cbv zeta. cbn [fst snd List.concat].
    set (self' := MessageGenerator.set_group_id self _).
    destruct (IH self') as (I1 & I2 & I3).
    destruct (group_messages_fields (MessageGenerator.group_id self')
                (MessageGenerator.source_id self) group) as (G1 & G2 & G3).
    split; [|split].
    + now rewrite map_app, G1, I1.
    + apply Forall_app. split; [|exact I2].
      apply Forall_forall. intros m Hm.
      rewrite Forall_forall in G3. destruct (G3 m Hm) as (Hn & _ & Hs).
      split; [exact Hs|]. rewrite Hn.
      assert (Hi : In (IEC61162450Message.i_sentence m)
                      (zrange 1 (Z.of_nat (List.length group)))).
      { rewrite <- G2. now apply in_map. }
      apply In_zrange in Hi. exact Hi.
    + exact I3.
Qed.

(** X14: wrapping the result of [generate_bbm] with [generate_msg], as the
    self-test of the message module does: neither call raises; there is one
    message per sentence, in order; the order and size in the TAG block of
    each message are the index and count of the sentence it embeds; and all
    messages carry the one group id the generator advanced to. *)
Theorem generate_bbm_then_generate_msg (sg : SentenceGenerator.t)
    (mg : MessageGenerator.t) (bs : BitStream) (channel msg_id : Z) :
  exists (groups : list (list BBMSentence.t)) (sg' : SentenceGenerator.t),
    SentenceGenerator.generate_bbm sg bs channel msg_id = Ok (groups, sg') /\
    map IEC61162450Message.sentence
        (fst (MessageGenerator.generate_msg mg groups)) = List.concat groups /\
    Forall (fun m =>
              IEC61162450Message.i_sentence m =
                BBMSentence.i_sentence (IEC61162450Message.sentence m) /\
              IEC61162450Message.n_sentences m =
                BBMSentence.n_sentences (IEC61162450Message.sentence m) /\
              IEC61162450Message.group_id m =
                advance (MessageGenerator.group_id mg) /\
              IEC61162450Message.source_id m = MessageGenerator.source_id mg)
           (fst (MessageGenerator.generate_msg mg groups)) /\
    MessageGenerator.group_id (snd (MessageGenerator.generate_msg mg groups)) =
      advance (MessageGenerator.group_id mg).
Proof.
  destruct (armoured_payload_defined bs) as [armored Ha].
  unfold SentenceGenerator.generate_bbm.
  rewrite (asm_payload_bs_to_bbm_sentences_spec _ _ _ _ _ _ Ha). cbn [bind].
  set (n := ceil (true_div (len armored) 57)).
  set (f := fun i => BBMSentence.mk n i _ _ _ _ _ _).
  assert (Hn : 0 <= n)
    by (apply ceil_true_div_nonneg; [lia | apply len_nonneg]).
  eexists [map f (zrange 1 n)], _. split; [reflexivity|].
  rewrite generate_msg_cons. cbv zeta. cbn [fst snd List.concat].
  rewrite !app_nil_r.
  split; [apply group_messages_fields|]. split; [|reflexivity].
  unfold group_messages. rewrite length_map, length_zrange.
  replace (Z.of_nat (Z.to_nat (n + 1 - 1))) with n by lia.
  rewrite combine_map_self, map_map.
  apply Forall_map, Forall_forall. intros i _. repeat split.
Qed.

(** ** Further properties: the argument after the call, and the fields *)

Lemma asm_payload_bs_to_bbm_sentences_inplace_fst (bs : BitStream)
    (sequential_id channel msg_id : Z) (talker_id : string) :
  asm_payload_bs_to_bbm_sentences_inplace bs sequential_id channel msg_id talker_id =
  (sentences <-
     asm_payload_bs_to_bbm_sentences bs sequential_id channel msg_id talker_id ;;
   Ok (sentences, bs ++ BitStream_zeros ((6 - bs_len bs mod 6) mod 6))%list).
Proof.
  unfold asm_payload_bs_to_bbm_sentences_inplace, asm_payload_bs_to_bbm_sentences.
  destruct (iec_ascii_6b_to_8b _); reflexivity.
Qed.

(** X15: the call leaves the caller's bit stream padded to a multiple of 6
    bits, so encoding the same object again gives the same sentences
    except that every one of them now reports 0 fill bits, and leaves the
    object as it is. *)
Theorem asm_payload_bs_to_bbm_sentences_twice (bs : BitStream)
    (sequential_id channel msg_id : Z) (talker_id : string) :
  exists (sentences : list BBMSentence.t) (bs' : BitStream),
    asm_payload_bs_to_bbm_sentences_inplace bs sequential_id channel msg_id
      talker_id = Ok (sentences, bs') /\
    asm_payload_bs_to_bbm_sentences bs sequential_id channel msg_id talker_id =
      Ok sentences /\
    bs' = (bs ++ BitStream_zeros ((6 - bs_len bs mod 6) mod 6))%list /\
    bs_len bs' mod 6 = 0 /\
    asm_payload_bs_to_bbm_sentences_inplace bs' sequential_id channel msg_id
      talker_id = Ok (map (with_n_fill_bits 0) sentences, bs').
Proof.
  destruct (armoured_payload_defined bs) as [armored Ha].
  destruct (fill_bits_range (bs_len bs)) as [Hf Hm].
  set (bs' := (bs ++ BitStream_zeros ((6 - bs_len bs mod 6) mod 6))%list) in *.
  assert (Hl : bs_len bs' mod 6 = 0).
  { unfold bs'. rewrite bs_len_padded by lia. exact Hm. }
  assert (Hz : (6 - bs_len bs' mod 6) mod 6 = 0) by (rewrite Hl; reflexivity).
  assert (Ha' : iec_ascii_6b_to_8b
                  (bs' ++ BitStream_zeros ((6 - bs_len bs' mod 6) mod 6)) =
                Ok armored).
  { rewrite Hz. unfold BitStream_zeros at 1. cbn [Z.to_nat repeat].
    rewrite app_nil_r. exact Ha. }
  eexists. exists bs'.
  split; [|split; [|split; [|split]]].
  - rewrite asm_payload_bs_to_bbm_sentences_inplace_fst.
    rewrite (asm_payload_bs_to_bbm_sentences_spec _ _ _ _ _ _ Ha). reflexivity.
  - apply (asm_payload_bs_to_bbm_sentences_spec _ _ _ _ _ _ Ha).
  - reflexivity.
  - exact Hl.
  - rewrite asm_payload_bs_to_bbm_sentences_inplace_fst.
    rewrite (asm_payload_bs_to_bbm_sentences_spec _ _ _ _ _ _ Ha'). cbn [bind].
    rewrite Hz. unfold BitStream_zeros at 1. cbn [Z.to_nat repeat].
    rewrite app_nil_r, map_map. reflexivity.
Qed.

(** X16: every sentence carries the sequential id, the channel, the
    message id (BBM) and the talker id the function was called with; its
    count is the number of sentences returned and its index is its
    position in the list, from 1. *)
Theorem sentences_carry_arguments (bs : BitStream)
    (sequential_id channel msg_id : Z) (vdm_channel talker_id : string) :
  exists (bbm : list BBMSentence.t) (vdm : list VDMSentence.t),
    asm_payload_bs_to_bbm_sentences bs sequential_id channel msg_id talker_id =
      Ok bbm /\
    ais_msg_bs_to_vdm_sentences bs sequential_id vdm_channel talker_id = Ok vdm /\
    Forall (fun s =>
              BBMSentence.sequential_id s = sequential_id /\
              BBMSentence.channel s = channel /\
              BBMSentence.msg_id s = msg_id /\
              BBMSentence.talker_id s = talker_id /\
              BBMSentence.n_sentences s = Z.of_nat (List.length bbm)) bbm /\
    Forall (fun s =>
              VDMSentence.sequential_id s = sequential_id /\
              VDMSentence.channel s = vdm_channel /\
              VDMSentence.talker_id s = talker_id /\
              VDMSentence.n_sentences s = Z.of_nat (List.length vdm)) vdm /\
    map BBMSentence.i_sentence bbm = zrange 1 (Z.of_nat (List.length bbm)) /\
    map VDMSentence.i_sentence vdm = zrange 1 (Z.of_nat (List.length vdm)).
Proof.
  destruct (armoured_payload_defined bs) as [armored Ha].
  pose proof (len_nonneg armored) as Hl.
  pose proof (ceil_true_div_nonneg (len armored) 57 ltac:(lia) Hl) as H57.
  pose proof (ceil_true_div_nonneg (len armored) 60 ltac:(lia) Hl) as H60.
  eexists. eexists.
  split; [apply (asm_payload_bs_to_bbm_sentences_spec _ _ _ _ _ _ Ha)|].
  split; [apply (ais_msg_bs_to_vdm_sentences_spec _ _ _ _ _ Ha)|].
  rewrite !length_map, !length_zrange, !map_map.
  cbn [BBMSentence.i_sentence VDMSentence.i_sentence]. rewrite !map_id.
  replace (Z.of_nat (Z.to_nat (ceil (true_div (len armored) 57) + 1 - 1)))
    with (ceil (true_div (len armored) 57)) by lia.
  replace (Z.of_nat (Z.to_nat (ceil (true_div (len armored) 60) + 1 - 1)))
    with (ceil (true_div (len armored) 60)) by lia.
  split; [apply Forall_map, Forall_forall; intros; repeat split|].
  split; [apply Forall_map, Forall_forall; intros; repeat split|].
  split; reflexivity.
Qed.

(** ** Armouring inside the sentence builders *)

(** C4: both sentence builders compute [fill = (6 - n mod 6) mod 6] from
    the [n] bits they are given, append that many zero bits (the BBM
    builder leaves the caller's bit stream so padded), and armour the
    padded bits: these are cut into consecutive groups of 6, each read most
    significant bit first as a value [v] in 0..63 and mapped to the
    character of code [v + 48] when [v < 40] and [v + 56] otherwise, which
    gives [(n + fill) / 6] characters.  Every sentence returned carries
    [fill], and the payloads of the sentences, joined in order, are that
    armoured string. *)
Theorem iec_armouring (bs : BitStream)
    (sequential_id channel msg_id : Z) (vdm_channel talker_id : string) :
  let n := bs_len bs in
  let fill := (6 - n mod 6) mod 6 in
  let padded := (bs ++ BitStream_zeros fill)%list in
  0 <= fill <= 5 /\ bs_len padded = n + fill /\ (n + fill) mod 6 = 0 /\
  exists (groups : list (list bool)) (armored : string)
         (bbm : list BBMSentence.t) (vdm : list VDMSentence.t),
    List.concat groups = padded /\
    Forall (fun g => List.length g = 6%nat) groups /\
    iec_ascii_6b_to_8b padded = Ok armored /\
    list_ascii_of_string armored =
      map (fun g => chr (if uint g <? 40 then uint g + 48 else uint g + 56)) groups /\
    Forall (fun g =>
              0 <= uint g <= 63 /\
              (forall b5 b4 b3 b2 b1 b0 : bool,
                 g = [b5; b4; b3; b2; b1; b0] ->
                 uint g = 32 * Z.b2z b5 + 16 * Z.b2z b4 + 8 * Z.b2z b3
                          + 4 * Z.b2z b2 + 2 * Z.b2z b1 + Z.b2z b0) /\
              ord (chr (if uint g <? 40 then uint g + 48 else uint g + 56)) =
                (if uint g <? 40 then uint g + 48 else uint g + 56)) groups /\
    len armored = (n + fill) / 6 /\
    asm_payload_bs_to_bbm_sentences_inplace bs sequential_id channel msg_id
      talker_id = Ok (bbm, padded) /\
    asm_payload_bs_to_bbm_sentences bs sequential_id channel msg_id talker_id =
      Ok bbm /\
    ais_msg_bs_to_vdm_sentences bs sequential_id vdm_channel talker_id = Ok vdm /\
    Forall (fun s => BBMSentence.n_fill_bits s = fill) bbm /\
    Forall (fun s => VDMSentence.n_fill_bits s = fill) vdm /\
    Z.of_nat (List.length bbm) = ceil (true_div (len armored) 57) /\
    Z.of_nat (List.length vdm) = ceil (true_div (len armored) 60) /\
    join (map BBMSentence.payload bbm) = armored /\
    join (map VDMSentence.payload vdm) = armored.
Proof.
  intros n fill padded.
  destruct (iec_armouring_groups bs)
    as (Hf & Hl & Hm & groups & armored & Hc & Hg & Ha & Hch & Hv & Hlen).
  fold n in Hf, Hl, Hm, Hc, Ha, Hlen. fold fill in Hf, Hl, Hm, Hc, Ha, Hlen.
  fold padded in Hl, Hc, Ha.
  split; [exact Hf|]. split; [exact Hl|]. split; [exact Hm|].
  pose proof (len_nonneg armored) as Hn.
  pose proof (ceil_true_div_nonneg (len armored) 57 ltac:(lia) Hn).
  pose proof (ceil_true_div_nonneg (len armored) 60 ltac:(lia) Hn).
  exists groups, armored. eexists. eexists.
  split; [exact Hc|]. split; [exact Hg|]. split; [exact Ha|].
  split; [exact Hch|]. split; [exact Hv|]. split; [exact Hlen|].
  split.
  { rewrite asm_payload_bs_to_bbm_sentences_inplace_fst.
    rewrite (asm_payload_bs_to_bbm_sentences_spec _ _ _ _ _ _ Ha). reflexivity. }
  split; [apply (asm_payload_bs_to_bbm_sentences_spec _ _ _ _ _ _ Ha)|].
  split; [apply (ais_msg_bs_to_vdm_sentences_spec _ _ _ _ _ Ha)|].
  split; [apply Forall_map, Forall_forall; intros; reflexivity|].
  split; [apply Forall_map, Forall_forall; intros; reflexivity|].
  rewrite !length_map, !length_zrange, !map_map.
  cbn [BBMSentence.payload VDMSentence.payload].
  split; [lia|]. split; [lia|].
  split; apply join_fragments_all; lia.
Qed.

(** ** The BBM sentence string over code points *)

Lemma code_points_of_string_app (a b : string) :
  CodePoints.of_string (a ++ b) =
  (CodePoints.of_string a ++ CodePoints.of_string b)%list.
Proof.
  unfold CodePoints.of_string.
  now rewrite list_ascii_of_string_append, map_app.
Qed.

Lemma code_points_of_string_eight_bit (s : string) :
  CodePoints.eight_bit (CodePoints.of_string s).
Proof.
  unfold CodePoints.eight_bit, CodePoints.of_string.
  apply Forall_map, Forall_forall. intros c _. apply ord_range.
Qed.

Lemma code_points_xor_from (s : CodePoints.str) (a : Z) :
  fold_left Z.lxor s a = Z.lxor a (CodePoints.xor_codes s).
Proof.
  unfold CodePoints.xor_codes. revert a; induction s as [|c s IH]; intro a.
  - cbn. now rewrite Z.lxor_0_r.
  - cbn [fold_left]. rewrite (IH (Z.lxor a c)), (IH (Z.lxor 0 c)).
    rewrite Z.lxor_0_l. apply Z.lxor_assoc.
Qed.

Lemma code_points_xor_codes_eight_bit (s : CodePoints.str) :
  CodePoints.eight_bit s -> 0 <= CodePoints.xor_codes s < 256.
Proof.
  unfold CodePoints.eight_bit. induction 1 as [|c s Hc _ IH].
  - cbn. lia.
  - unfold CodePoints.xor_codes. cbn [fold_left].
    rewrite code_points_xor_from, Z.lxor_0_l. now apply lxor_byte.
Qed.

Lemma code_points_xor_codes_of_string (s : string) :
  CodePoints.xor_codes (CodePoints.of_string s) = xor_codes s.
Proof.
  unfold CodePoints.xor_codes, CodePoints.of_string, xor_codes.
  generalize 0. induction (list_ascii_of_string s) as [|c l IH]; intro a.
  - reflexivity.
  - cbn [map fold_left]. apply IH.
Qed.

(** The checksum of a string that begins with [!]. *)
Lemma code_points_iec_checksum_bang (body : CodePoints.str) :
  CodePoints.iec_checksum (CodePoints.of_string "!" ++ body) =
  Ok (CodePoints.xor_codes body).
Proof. reflexivity. Qed.

(** Over any code points the sentence renders, with the checksum printed
    by ["{:>02X}"]: upper-case hexadecimal, padded to two digits and never
    cut. *)
Lemma code_points_BBMSentence_string (b : CodePoints.BBMSentence.t) :
  CodePoints.BBMSentence.string b =
  Ok (CodePoints.bbm_frame b
        (CodePoints.of_string (fmt_r02X (CodePoints.xor_codes (CodePoints.bbm_body b))))).
Proof.
  unfold CodePoints.BBMSentence.string.
  set (s := (CodePoints.of_string "!" ++ _)%list).
  assert (E : s = (CodePoints.of_string "!" ++ CodePoints.bbm_body b)%list).
  { subst s. unfold CodePoints.bbm_body, CodePoints.join_with.
    cbn [flat_map]. rewrite app_nil_r, <- !app_assoc. reflexivity. }
  rewrite E, code_points_iec_checksum_bang. cbn [bind].
  unfold CodePoints.bbm_frame. now rewrite <- !app_assoc.
Qed.

Lemma code_points_bbm_body_eight_bit (b : CodePoints.BBMSentence.t) :
  CodePoints.eight_bit (CodePoints.BBMSentence.talker_id b) ->
  CodePoints.eight_bit (CodePoints.BBMSentence.payload b) ->
  CodePoints.eight_bit (CodePoints.bbm_body b).
Proof.
  intros Ht Hp. unfold CodePoints.bbm_body, CodePoints.join_with,
    CodePoints.BBMSentence.formatter_code.
  cbn [flat_map]. unfold CodePoints.eight_bit in *.
  repeat (apply Forall_app; split);
    try exact Ht; try exact Hp; try apply code_points_of_string_eight_bit.
  constructor.
Qed.




(** On sentences of 8-bit strings the two models agree. *)
Lemma code_points_BBMSentence_string_agrees (b : BBMSentence.t) :
  CodePoints.BBMSentence.string (code_points_of_BBMSentence b) =
  Ok (CodePoints.of_string (bbm_grammar b)) /\
  BBMSentence.string b = Ok (bbm_grammar b).
Proof.
  split; [|apply BBMSentence_string_ok].
  assert (B : CodePoints.bbm_body (code_points_of_BBMSentence b) =
              CodePoints.of_string (bbm_body b)).
  { unfold CodePoints.bbm_body, CodePoints.join_with, bbm_body, bbm_fields,
      code_points_of_BBMSentence, CodePoints.BBMSentence.formatter_code,
      BBMSentence.formatter_code.
    cbn [flat_map String.concat CodePoints.BBMSentence.talker_id
         CodePoints.BBMSentence.payload CodePoints.BBMSentence.n_sentences
         CodePoints.BBMSentence.i_sentence CodePoints.BBMSentence.sequential_id
         CodePoints.BBMSentence.channel CodePoints.BBMSentence.msg_id
         CodePoints.BBMSentence.n_fill_bits].
    rewrite !code_points_of_string_app, app_nil_r, <- !app_assoc. reflexivity. }
  rewrite code_points_BBMSentence_string, B, code_points_xor_codes_of_string.
  rewrite fmt_r02X_byte by apply xor_codes_range.
  unfold CodePoints.bbm_frame, bbm_grammar.
  rewrite B, !code_points_of_string_app. reflexivity.
Qed.
